(** * run.py of dga_predict: macro-averaged ROC curves and the report pipeline

    A shallow embedding of [src/run.py].  Floating point numbers are read as
    exact rationals ([Qc], canonical fractions, so that two numbers are equal
    exactly when their values are).  Python exceptions are the [Raises]
    outcome of a small error monad; files and the process environment are
    finite maps that are threaded through the calls. *)

From Stdlib Require Import QArith Qcanon Ascii.
From stdpp Require Import base numbers list sorting strings pretty gmap.

Local Open Scope Qc_scope.

(** ** Outcomes of a Python call *)

Inductive exn : Type :=
  | ValueError
  | IndexError
  | TypeError
  | KeyError
  | UnboundLocalError
  | UnpicklingError
  | IOError
  | ZeroDivisionError.

Inductive outcome (A : Type) : Type :=
  | Returns (a : A)
  | Raises (e : exn)
  (** the call returns, but with a [nan] in its result (a float division
      0.0 / 0 of numpy, which warns instead of raising): no rational
      number stands for that value *)
  | NotANumber.
Arguments Returns {A} a.
Arguments Raises {A} e.
Arguments NotANumber {A}.

#[global] Instance outcome_ret : MRet outcome := λ A a, Returns a.

#[global] Instance outcome_bind : MBind outcome := λ A B k m,
  match m with
  | Returns a => k a
  | Raises e => Raises e
  | NotANumber => NotANumber
  end.

(** ** numpy and scikit-learn primitives used by [calc_macro_roc]

    [interp], [zeros_like], [trapz] and [auc] are library functions; they
    are written here as the libraries document them. *)

Module Np.

(** [for (i = i0; i < len && key >= arr[i]; ++i);], on the part of the
    array that starts at index [i]; the value of [i] when the loop ends. *)
Fixpoint scan (key : Qc) (rest : list Qc) (i : nat) : nat :=
  match rest with
  | [] => i
  | a :: rest' => if decide (a ≤ key) then scan key rest' (S i) else i
  end.

(** The index found by numpy's [binary_search_with_guess]: [-1] below the
    first sample point, [len] above the last one, and otherwise the index
    [j] with [arr[j] <= key < arr[j+1]].  The library documents its
    result for non-decreasing sample points only, where every one of its
    search strategies returns the index of the linear scan written here. *)
Inductive position : Type :=
  | Below
  | Above
  | At (j : nat).

Definition search (key : Qc) (arr : list Qc) : position :=
  if decide (nth (length arr - 1) arr 0 < key) then Above
  else if decide (key < nth 0 arr 0) then Below
  else At (scan key (drop 1 arr) 1 - 1).

(** One output value of [np.interp(x, xp, fp)], for [xp] and [fp] of the
    same positive length: [left] and [right] default to [fp[0]] and
    [fp[-1]].  Every index that is read lies within the arrays, so the
    default of [nth] is never the value. *)
Definition interp1 (xp fp : list Qc) (x : Qc) : Qc :=
  let lval := nth 0 fp 0 in
  let rval := nth (length fp - 1) fp 0 in
  if decide (length xp = 1%nat) then
    if decide (x < nth 0 xp 0) then lval
    else if decide (nth 0 xp 0 < x) then rval
    else nth 0 fp 0
  else
    match search x xp with
    | Below => lval
    | Above => rval
    | At j =>
        if decide (j = (length xp - 1)%nat) then nth j fp 0
        else if decide (nth j xp 0 = x) then nth j fp 0
        else
          let slope :=
            (nth (S j) fp 0 - nth j fp 0) / (nth (S j) xp 0 - nth j xp 0) in
          slope * (x - nth j xp 0) + nth j fp 0
    end.

(** [np.interp(x, xp, fp)] ([scipy.interp] is the same function): an empty
    [xp], or an [fp] of another length, is a [ValueError]. *)
Definition interp (x xp fp : list Qc) : outcome (list Qc) :=
  if decide (length xp = 0%nat) then Raises ValueError
  else if decide (length fp = length xp) then Returns (map (interp1 xp fp) x)
  else Raises ValueError.

(** [np.zeros_like(a)] *)
Definition zeros_like (a : list Qc) : list Qc := replicate (length a) 0.

(** [a += b] on arrays of one shape *)
Definition add (a b : list Qc) : list Qc := zip_with Qcplus a b.

(** [np.diff(x)] *)
Fixpoint diff (x : list Qc) : list Qc :=
  match x with
  | a :: (b :: _) as x' => (b - a) :: diff x'
  | _ => []
  end.

(** [np.trapz(y, x)]: the sum of [(x[i+1] - x[i]) * (y[i+1] + y[i]) / 2] *)
Fixpoint trapz (y x : list Qc) : Qc :=
  match y, x with
  | y0 :: (y1 :: _) as y', x0 :: (x1 :: _) as x' =>
      (x1 - x0) * (y1 + y0) / 2 + trapz y' x'
  | _, _ => 0
  end.

End Np.

Module Sk.

(** [sklearn.metrics.auc(x, y)] with [reorder] left at [False]. *)
Definition auc (x y : list Qc) : outcome Qc :=
  if decide (length x = length y) then
    if decide (length x < 2)%nat then Raises ValueError
    else
      let dx := Np.diff x in
      if decide (Exists (λ d, d < 0) dx) then
        if decide (Forall (λ d, d ≤ 0) dx) then Returns (- 1 * Np.trapz y x)
        else Raises ValueError
      else Returns (1 * Np.trapz y x)
  else Raises ValueError.

End Sk.

(** ** [calc_macro_roc] *)

(** [sorted(...)] on numbers: Python's sort is a stable merge sort. *)
Definition sorted (l : list Qc) : list Qc := merge_sort Qcle l.

(** The loop [for i in range(len(tpr)): mean_tpr += interp(all_fpr, fpr[i],
    tpr[i])]; [i] is the index of the first curve of [tpr_rest]. *)
Fixpoint accumulate (all_fpr : list Qc) (fpr : list (list Qc))
    (tpr_rest : list (list Qc)) (i : nat) (mean_tpr : list Qc)
    : outcome (list Qc) :=
  match tpr_rest with
  | [] => Returns mean_tpr
  | tpr_i :: tpr_rest' =>
      match fpr !! i with
      | None => Raises IndexError
      | Some fpr_i =>
          v ← Np.interp all_fpr fpr_i tpr_i ;
          accumulate all_fpr fpr tpr_rest' (S i) (Np.add mean_tpr v)
      end
  end.

Definition Qc_of_nat (n : nat) : Qc := Qc_of_Z (Z.of_nat n).

(** [all_fpr] is [sorted] of the chain of the lists in [fpr]; then the loop,
    and [return all_fpr, mean_tpr / len(tpr), auc(all_fpr, mean_tpr) / len(tpr)].
    [auc] is called on [mean_tpr] as the loop left it, the sum.  With no
    curve in [tpr] the two divisions are numpy divisions by zero, which
    raise nothing: where [auc] has returned they put [nan] in the result. *)
Definition calc_macro_roc (fpr tpr : list (list Qc))
    : outcome (list Qc * list Qc * Qc) :=
  let all_fpr := sorted (concat fpr) in
  mean_tpr ← accumulate all_fpr fpr tpr 0 (Np.zeros_like all_fpr) ;
  area ← Sk.auc all_fpr mean_tpr ;
  if decide (length tpr = 0%nat) then NotANumber
  else
    Returns (all_fpr,
             map (λ s, s / Qc_of_nat (length tpr)) mean_tpr,
             area / Qc_of_nat (length tpr)).

(** ** The aggregator in the words of its description *)

(** A ROC curve as the aggregator receives it: the FPR values and the TPR
    values of one fold. *)
Abbreviation curve := (list Qc * list Qc)%type.

(** What [np.interp] needs of a curve: at least one point, and as many TPR
    values as FPR values. *)
Definition aligned (c : curve) : Prop := c.1 ≠ [] ∧ length c.2 = length c.1.

#[global] Instance aligned_dec c : Decision (aligned c).
Proof. unfold aligned. apply _. Defined.

(** The input of the aggregator that it accepts: at least one curve, every
    curve aligned, and at least two FPR values in all (the least that [auc]
    takes). *)
Definition well_formed (cs : list curve) : Prop :=
  cs ≠ [] ∧ Forall aligned cs ∧ (2 ≤ length (concat (map fst cs)))%nat.

#[global] Instance well_formed_dec cs : Decision (well_formed cs).
Proof. unfold well_formed. apply _. Defined.

Definition sum_Qc (l : list Qc) : Qc := foldr Qcplus 0 l.

(** The sum over the curves of their interpolated TPR at the abscissa [x] *)
Definition interp_sum (curves : list curve) (x : Qc) : Qc :=
  sum_Qc (map (λ c, Np.interp1 c.1 c.2 x) curves).

(** The sum of the interpolated TPR sequences, before the division *)
Definition pointwise_sum (cs : list curve) (dom : list Qc) : list Qc :=
  map (interp_sum cs) dom.

(** The macro TPR in the words of the specification: at every point of the
    shared domain, the interpolated TPR values of the curves, summed and
    divided by the fold count. *)
Definition pointwise_average (cs : list curve) (dom : list Qc) : list Qc :=
  map (λ x, interp_sum cs x / Qc_of_nat (length cs)) dom.

(** The shared domain in the words of the specification: the FPR values of
    all curves collected into a set, which is then sorted ascending. *)
Definition sorted_union (fpr : list (list Qc)) : list Qc :=
  sorted (remove_dups (concat fpr)).




(** ** Concrete curves *)

Definition half : Qc := Q2Qc (1 # 2).

(** The diagonal, on three points *)
Definition diagonal : list Qc := [0; half; 1].

(** Two folds on the diagonal, of two and of three points *)
Definition two_diagonals : list curve :=
  [([0; 1], [0; 1]); ([0; half; 1], [0; half; 1])].

(** The fold of a perfect classifier and the fold of a random one *)
Definition perfect_and_random : list curve :=
  [([0; 0; 1], [0; 1; 1]); ([0; 1], [0; 1])].

(** A curve of one point, and a domain that reaches beyond it *)
Definition one_point_fpr : list Qc := [half].
Definition one_point_tpr : list Qc := [1].
Definition unit_domain : list Qc := [0; half; 1].

(** Two canonical rationals are equal when their fractions are: this closes
    an equation between computed results, component by component. *)
Ltac qc_eval :=
  vm_compute;
  repeat first
    [ apply Qc_is_canon; reflexivity
    | reflexivity
    | f_equal ].

(** ** The data of the pipeline *)

(** One fold of a cross-validation run: the dict with the keys
    ['indata_test'], ['y'] and ['probs']. *)
Record fold : Type := Fold {
  indata_test : list (Z * string);
  y : list Z;
  probs : list Qc
}.

(** The results of one model: [None], or the list of its folds. *)
Abbreviation model_results := (option (list fold)).

(** The dict [results], from model name to model results. *)
Abbreviation results := (gmap string model_results).

(** A value of a keyword argument of [create_figs]: a boolean, or the string
    found in the environment. *)
Inductive pyval : Type :=
  | PyBool (b : bool)
  | PyStr (s : string).

(** Python's truth value of such an argument. *)
Definition truthy (v : pyval) : bool :=
  match v with
  | PyBool b => b
  | PyStr s => negb (String.eqb s "")
  end.

(** Truth value of [results['bigram']]: [None] and [[]] are false. *)
Definition truthy_results (r : model_results) : bool :=
  match r with
  | None | Some [] => false
  | Some (_ :: _) => true
  end.

(** One line drawn by [plt.plot]. *)
Record line : Type := Line {
  line_x : list Qc;
  line_y : list Qc;
  line_model : string;
  line_auc : Qc
}.

(** ** Programs that write files: state over the outcome *)

Abbreviation files := (gmap string string).

Definition prog (A : Type) : Type := files → outcome A * files.

#[global] Instance prog_ret : MRet prog := λ A a fs, (Returns a, fs).

#[global] Instance prog_bind : MBind prog := λ A B k m fs,
  match m fs with
  | (Returns a, fs') => k a fs'
  | (Raises e, fs') => (Raises e, fs')
  | (NotANumber, fs') => (NotANumber, fs')
  end.

Definition lift {A} (o : outcome A) : prog A := λ fs, (o, fs).
Definition raise {A} (e : exn) : prog A := lift (Raises e).

(** [open(name, 'w')]: the file is created, or truncated. *)
Definition open_w (name : string) : prog unit := λ fs,
  (Returns (), <[name := ""]> fs).

(** A write to a file that was opened with [open_w]. *)
Definition write (name text : string) : prog unit := λ fs,
  (Returns (), <[name := default "" (fs !! name) +:+ text]> fs).

(** [os.path.isfile(name)] *)
Definition isfile (name : string) (fs : files) : bool :=
  bool_decide (is_Some (fs !! name)).

(** The line that [writeheader] writes; [csv] ends a line with CR LF. *)
Definition csv_header : string :=
  "domain,real_label,prob,real_y"
  +:+ String (Ascii.ascii_of_nat 13) (String (Ascii.ascii_of_nat 10) "").

(** What [run.py] runs in: the process environment [os.environ], and the
    collaborators that are no part of this file: the two models, [roc_curve]
    of scikit-learn, [int] on a string, [pickle], the row format of [csv] and
    the renderer of matplotlib. *)
Class Host : Type := {
  environ : gmap string string;
  bigram_run : Z → Z → list fold;
  lstm_run : Z → Z → list fold;
  roc_curve : list Z → list Qc → list Qc * list Qc;
  py_int : string → option Z;
  pickle_dumps : results → string;
  pickle_loads : string → option results;
  csv_row : string → Z → Qc → Z → string;
  render : list line → string
}.

Section pipeline.

Context `{!Host}.

(** [os.environ.get(key, default)] *)
Definition environ_get (key : string) (default : pyval) : pyval :=
  match environ !! key with
  | Some s => PyStr s
  | None => default
  end.

(** [RESULT_FILE = os.environ.get('RESULT_FILE', 'results.pkl')] *)
Definition RESULT_FILE : string :=
  default "results.pkl" (environ !! "RESULT_FILE").

(** [int(os.environ.get(key, d))] *)
Definition environ_int (key : string) (d : Z) : outcome Z :=
  match environ !! key with
  | None => Returns d
  | Some s =>
      match py_int s with
      | Some n => Returns n
      | None => Raises ValueError
      end
  end.

Definition run_experiments (isbigram islstm : pyval) (nfolds : Z)
    : outcome (model_results * model_results) :=
  bigram_results ←
    (if truthy isbigram then
       max_bigram_epoch ← environ_int "MAX_BIGRAM_EPOCH" 50 ;
       mret (Some (bigram_run nfolds max_bigram_epoch))
     else mret None) ;
  lstm_results ←
    (if truthy islstm then
       max_lstm_epoch ← environ_int "MAX_LSTM_EPOCH" 25 ;
       mret (Some (lstm_run nfolds max_lstm_epoch))
     else mret None) ;
  mret (bigram_results, lstm_results).

(** The rows of one fold, [for i in range(len(fold['indata_test']))]:
    [rest] is [fold['indata_test'][i:]]. *)
Fixpoint write_rows (name : string) (f : fold) (rest : list (Z * string))
    (i : nat) : prog unit :=
  match rest with
  | [] => mret ()
  | (real_label, domain) :: rest' =>
      match y f !! i with
      | None => raise IndexError
      | Some real_y =>
          match probs f !! i with
          | None => raise IndexError
          | Some prob =>
              write name (csv_row domain real_label prob real_y) ;;
              write_rows name f rest' (S i)
          end
      end
  end.

(** [for nfold in range(len(results[resultset]))], from fold [nfold] on *)
Fixpoint write_folds (resultset : string) (folds : list fold) (nfold : nat)
    : prog unit :=
  match folds with
  | [] => mret ()
  | f :: folds' =>
      let name := resultset +:+ "-" +:+ pretty nfold +:+ "-resultset.csv" in
      open_w name ;;
      write name csv_header ;;
      write_rows name f (indata_test f) 0 ;;
      write_folds resultset folds' (S nfold)
  end.

(** [for resultset in results], over the items that are left;
    [len(None)] is a [TypeError]. *)
Fixpoint write_resultsets (items : list (string * model_results)) : prog unit :=
  match items with
  | [] => mret ()
  | (resultset, r) :: items' =>
      match r with
      | None => raise TypeError
      | Some folds => write_folds resultset folds 0
      end ;;
      write_resultsets items'
  end.

(** Python leaves the order in which a dict is walked unspecified; the
    model walks it in the order of [map_to_list]. *)
Definition write_results_to_csv (res : results) : prog unit :=
  write_resultsets (map_to_list res).

(** The body of [if results[model]: ...]: the ROC curve of every fold, then
    the macro average. *)
Definition macro_of (folds : list fold) : outcome (list Qc * list Qc * Qc) :=
  let curves := map (λ f, roc_curve (y f) (probs f)) folds in
  calc_macro_roc (map fst curves) (map snd curves).

(** The variables [<model>_binary_fpr], [.._tpr], [.._auc] after the [if]:
    [None] when they were not assigned. *)
Definition extract (res : results) (model : string)
    : outcome (option (list Qc * list Qc * Qc)) :=
  match res !! model with
  | None => Raises KeyError
  | Some r =>
      if truthy_results r then
        m ← macro_of (default [] r) ; mret (Some m)
      else mret None
  end.

(** The use of the variables of one model in [plt.plot] *)
Definition plot (model : string) (m : option (list Qc * list Qc * Qc))
    : outcome line :=
  match m with
  | None => Raises UnboundLocalError
  | Some (fpr, tpr, area) => Returns (Line fpr tpr model area)
  end.

(** [pickle.dump(results, open(RESULT_FILE, 'w'))] *)
Definition cache_store (res : results) : prog unit :=
  open_w RESULT_FILE ;;
  write RESULT_FILE (pickle_dumps res).

(** [pickle.load(open(RESULT_FILE))] *)
Definition cache_load : prog results := λ fs,
  match fs !! RESULT_FILE with
  | None => (Raises IOError, fs)
  | Some text =>
      match pickle_loads text with
      | Some res => (Returns res, fs)
      | None => (Raises UnpicklingError, fs)
      end
  end.

(** The branch that runs the experiments and stores their results *)
Definition regenerate (isbigram islstm : pyval) (nfolds : Z) : prog results :=
  r ← lift (run_experiments isbigram islstm nfolds) ;
  let res : results := <["bigram" := r.1]> (<["lstm" := r.2]> ∅) in
  cache_store res ;;
  mret res.

(** The statement [if force or (not os.path.isfile(RESULT_FILE)): ... else:
    ...] that binds [results]. *)
Definition load_or_run (isbigram islstm : pyval) (nfolds : Z) (force : pyval)
    : prog results := λ fs,
  if truthy force || negb (isfile RESULT_FILE fs) then
    regenerate isbigram islstm nfolds fs
  else cache_load fs.

Definition create_figs (isbigram islstm : pyval) (nfolds : Z) (force : pyval)
    : prog unit :=
  res ← load_or_run isbigram islstm nfolds force ;
  write_results_to_csv res ;;
  bigram_macro ← lift (extract res "bigram") ;
  lstm_macro ← lift (extract res "lstm") ;
  lstm_line ← lift (plot "LSTM" lstm_macro) ;
  bigram_line ← lift (plot "Bigrams" bigram_macro) ;
  open_w "results.png" ;;
  write "results.png" (render [lstm_line; bigram_line]).

(** The defaults of the keyword arguments of [create_figs] *)
Definition default_isbigram : pyval := environ_get "BIGRAM" (PyBool true).
Definition default_islstm : pyval := environ_get "LSTM" (PyBool true).
Definition default_force : pyval := environ_get "FORCE" (PyBool false).

(** [create_figs(nfolds=int(os.environ.get('NFOLDS', 1)))] *)
Definition main : prog unit :=
  nfolds ← lift (environ_int "NFOLDS" 1) ;
  create_figs default_isbigram default_islstm nfolds default_force.

End pipeline.

(** ** The CSV files in closed form *)

(** The name of the file of fold [nfold] of the result set [resultset] *)
Definition csv_name (resultset : string) (nfold : nat) : string :=
  resultset +:+ "-" +:+ pretty nfold +:+ "-resultset.csv".

Definition csv_named (name : string) : Prop :=
  ∃ resultset nfold, name = csv_name resultset nfold.

(** A fold with a label and a probability for every test sample *)
Definition rows_aligned (f : fold) : Prop :=
  (length (indata_test f) ≤ length (y f))%nat
  ∧ (length (indata_test f) ≤ length (probs f))%nat.

#[global] Instance rows_aligned_dec f : Decision (rows_aligned f).
Proof. unfold rows_aligned. apply _. Defined.

(** A result set that the CSV stage takes: a list of such folds *)
Definition csv_ready_model (r : model_results) : Prop :=
  match r with
  | Some folds => Forall rows_aligned folds
  | None => False
  end.

#[global] Instance csv_ready_model_dec r : Decision (csv_ready_model r).
Proof. destruct r; apply _. Defined.

Definition csv_ready (res : results) : Prop :=
  map_Forall (λ _, csv_ready_model) res.

(** A string without the character [-] *)
Fixpoint dashless (s : string) : bool :=
  match s with
  | EmptyString => true
  | String a s' => negb (Ascii.eqb a "-"%char) && dashless s'
  end.

Section csv_text.

Context `{!Host}.

(** The rows of a fold: sample [i] with label [i] and probability [i] *)
Definition csv_rows (f : fold) : list string :=
  zip_with (λ t yp, csv_row t.2 t.1 yp.2 yp.1)
    (indata_test f) (zip (y f) (probs f)).

(** The text of the file of a fold: the header, then the rows in order *)
Definition csv_text (f : fold) : string :=
  csv_header +:+ foldr (λ row text, row +:+ text) "" (csv_rows f).

(** The files after the folds of one result set have been written *)
Fixpoint csv_files (resultset : string) (folds : list fold) (nfold : nat)
    (fs : files) : files :=
  match folds with
  | [] => fs
  | f :: folds' =>
      csv_files resultset folds' (S nfold)
        (<[csv_name resultset nfold := csv_text f]> fs)
  end.

(** The files after all result sets have been written *)
Fixpoint csv_files_items (items : list (string * model_results)) (fs : files)
    : files :=
  match items with
  | [] => fs
  | (resultset, r) :: items' =>
      csv_files_items items' (csv_files resultset (default [] r) 0 fs)
  end.


End csv_text.

(** A program keeps to the names in [P]: it leaves every other file as it
    is, and it removes no file. *)
Definition keeps_to {A} (P : string → Prop) (m : prog A) : Prop :=
  ∀ fs,
    (∀ name, ¬ P name → (m fs).2 !! name = fs !! name)
    ∧ (∀ name, is_Some (fs !! name) → is_Some ((m fs).2 !! name)).

Section report.

Context `{!Host}.

(** What [create_figs] does once [results] is bound *)
Definition report (res : results) : prog unit :=
  write_results_to_csv res ;;
  bigram_macro ← lift (extract res "bigram") ;
  lstm_macro ← lift (extract res "lstm") ;
  lstm_line ← lift (plot "LSTM" lstm_macro) ;
  bigram_line ← lift (plot "Bigrams" bigram_macro) ;
  open_w "results.png" ;;
  write "results.png" (render [lstm_line; bigram_line]).

(** The names of the report: the figure and the CSV files *)
Definition report_name (name : string) : Prop :=
  name = "results.png" ∨ csv_named name.

End report.

(** Two hosts that differ in nothing that a run from the cache reads: they
    may differ in the models, in [int] and in [pickle.dump]. *)
Definition same_but_models (H1 H2 : Host) : Prop :=
  @environ H1 = @environ H2
  ∧ @roc_curve H1 = @roc_curve H2
  ∧ @pickle_loads H1 = @pickle_loads H2
  ∧ @csv_row H1 = @csv_row H2
  ∧ @render H1 = @render H2.

(** A program settles when on every state it returns or raises. *)
Definition settles {A} (m : prog A) : Prop :=
  ∀ fs, ∃ fs', (∃ a, m fs = (Returns a, fs')) ∨ (∃ e, m fs = (Raises e, fs')).

(** ** A reference host *)

(** A host on which the pipeline can be run: models that return one fold of
    one sample, a diagonal ROC curve, and a serialisation of the results as
    the binary digits of their code. *)

#[global] Instance fold_eq_dec : EqDecision fold.
Proof. solve_decision. Defined.

#[global] Instance fold_countable : Countable fold.
Proof.
  apply (inj_countable' (λ f, (indata_test f, y f, probs f))
           (λ t, Fold t.1.1 t.1.2 t.2)).
  by intros [].
Defined.

Fixpoint pos_to_string (p : positive) : string :=
  match p with
  | xH => EmptyString
  | xO p' => String "0"%char (pos_to_string p')
  | xI p' => String "1"%char (pos_to_string p')
  end.

Fixpoint string_to_pos (s : string) : option positive :=
  match s with
  | EmptyString => Some xH
  | String a s' =>
      if Ascii.eqb a "0"%char then xO <$> string_to_pos s'
      else if Ascii.eqb a "1"%char then xI <$> string_to_pos s'
      else None
  end.

Definition reference_dumps (r : results) : string := pos_to_string (encode r).

Definition reference_loads (s : string) : option results :=
  string_to_pos s ≫= decode.

Definition reference_fold : fold := Fold [(0%Z, "example.com")] [0%Z] [half].

Definition reference_host : Host := {|
  environ := ∅;
  bigram_run := λ _ _, [reference_fold];
  lstm_run := λ _ _, [reference_fold];
  roc_curve := λ _ _, ([0; 1], [0; 1]);
  py_int := λ _, None;
  pickle_dumps := reference_dumps;
  pickle_loads := reference_loads;
  csv_row := λ domain _ _ _, domain;
  render := λ _, "figure"
|}.

(** The reference host with other models, another [int] and another
    [pickle.dump] *)
Definition other_models_host : Host := {|
  environ := ∅;
  bigram_run := λ _ _, [];
  lstm_run := λ _ _, [reference_fold; reference_fold];
  roc_curve := λ _ _, ([0; 1], [0; 1]);
  py_int := λ _, Some 3%Z;
  pickle_dumps := λ _, "";
  pickle_loads := reference_loads;
  csv_row := λ domain _ _ _, domain;
  render := λ _, "figure"
|}.

(** The reference host with the LSTM model switched off in the environment *)
Definition lstm_off_host : Host := {|
  environ := <["LSTM" := ""]> ∅;
  bigram_run := λ _ _, [reference_fold];
  lstm_run := λ _ _, [reference_fold];
  roc_curve := λ _ _, ([0; 1], [0; 1]);
  py_int := λ _, None;
  pickle_dumps := reference_dumps;
  pickle_loads := reference_loads;
  csv_row := λ domain _ _ _, domain;
  render := λ _, "figure"
|}.

(** The macro curve of the folds of the reference host *)
Definition reference_macro : list Qc * list Qc * Qc := ([0; 1], [0; 1], half).

(** The results of a run with both models *)
Definition both_models : results :=
  <["bigram" := Some [reference_fold]]> (<["lstm" := Some [reference_fold]]> ∅).

(** The results of a run with the bigram model alone *)
Definition bigram_only : results :=
  <["bigram" := Some [reference_fold]]> (<["lstm" := None]> ∅).

(** * Properties *)

(** ** Arithmetic on [Qc] *)

Lemma Qc_of_nat_1 : Qc_of_nat 1 = 1.
Proof. by apply Qc_is_canon. Qed.

Lemma Qcdiv_1 (x : Qc) : x / 1 = x.
Proof. apply (right_id 1 Qcdiv). Qed.

(** ** [sorted] *)

Lemma sorted_Sorted (l : list Qc) : Sorted Qcle (sorted l).
Proof. apply (Sorted_merge_sort Qcle). Qed.

Lemma sorted_Permutation (l : list Qc) : sorted l ≡ₚ l.
Proof. apply (merge_sort_Permutation Qcle). Qed.

Lemma sorted_length (l : list Qc) : length (sorted l) = length l.
Proof. by rewrite sorted_Permutation. Qed.

(** A list that is already in ascending order is left as it is. *)
Lemma sorted_id (l : list Qc) : Sorted Qcle l → sorted l = l.
Proof.
  intros Hl. apply (Sorted_unique Qcle); [apply sorted_Sorted | done |].
  apply sorted_Permutation.
Qed.


(** In an ascending list, a later element is not smaller. *)
Lemma Sorted_nth_le (l : list Qc) (i j : nat) :
  Sorted Qcle l → (i ≤ j)%nat → (j < length l)%nat → nth i l 0 ≤ nth j l 0.
Proof.
  intros Hl%(Sorted_StronglySorted Qcle). revert i j.
  induction Hl as [|a l Hl IH Ha]; intros i j Hij Hj; simpl in *; [lia|].
  destruct i as [|i], j as [|j]; try lia.
  - reflexivity.
  - rewrite Forall_forall in Ha. apply Ha, list_elem_of_In, nth_In. lia.
  - apply IH; lia.
Qed.

(** ** [np.diff], [np.trapz] and [auc] *)

Lemma diff_Sorted (x : list Qc) : Sorted Qcle x → Forall (λ d, 0 ≤ d) (Np.diff x).
Proof.
  induction 1 as [|a l Hl IH Ha]; [constructor|].
  destruct l as [|b l]; [constructor|].
  simpl. constructor; [|done].
  inversion_clear Ha as [|? ? Hab]. unfold Qcminus.
  apply (Qcplus_le_mono_r _ _ (- a)) in Hab. by rewrite Qcplus_opp_r in Hab.
Qed.

(** On an ascending abscissa of at least two points [auc] is the
    trapezoidal rule. *)
Lemma auc_Sorted (x y : list Qc) :
  Sorted Qcle x → length x = length y → (2 ≤ length x)%nat →
  Sk.auc x y = Returns (Np.trapz y x).
Proof.
  intros Hx Hlen H2. unfold Sk.auc.
  rewrite decide_True by done. rewrite decide_False by lia.
  rewrite decide_False; [f_equal; ring|].
  intros Hex. apply Exists_exists in Hex as (d & Hd & Hneg).
  pose proof (diff_Sorted x Hx) as Hall. rewrite Forall_forall in Hall.
  apply Hall in Hd. by apply Qcle_ngt in Hd.
Qed.

(** The trapezoidal rule is linear in the ordinates. *)
Lemma trapz_div (y x : list Qc) (n : Qc) :
  Np.trapz (map (λ s, s / n) y) x = Np.trapz y x / n.
Proof.
  revert x. induction y as [|y0 y IH]; intros x.
  { simpl. unfold Qcdiv. ring. }
  destruct y as [|y1 y]; [simpl; unfold Qcdiv; ring|].
  destruct x as [|x0 [|x1 x]]; try (simpl; unfold Qcdiv; ring).
  specialize (IH (x1 :: x)).
  change (Np.trapz (map (λ s, s / n) (y0 :: y1 :: y)) (x0 :: x1 :: x))
    with ((x1 - x0) * (y1 / n + y0 / n) / 2
          + Np.trapz (map (λ s, s / n) (y1 :: y)) (x1 :: x)).
  rewrite IH.
  change (Np.trapz (y0 :: y1 :: y) (x0 :: x1 :: x))
    with ((x1 - x0) * (y1 + y0) / 2 + Np.trapz (y1 :: y) (x1 :: x)).
  unfold Qcdiv. ring.
Qed.

(** ** The accumulation loop of [calc_macro_roc] *)

Lemma interp_aligned (dom : list Qc) (c : curve) :
  aligned c → Np.interp dom c.1 c.2 = Returns (map (Np.interp1 c.1 c.2) dom).
Proof.
  intros [Hne Hlen]. unfold Np.interp.
  rewrite decide_False by (by destruct (c.1)).
  by rewrite decide_True.
Qed.

Lemma add_zeros (dom : list Qc) (f : Qc → Qc) :
  Np.add (Np.zeros_like dom) (map f dom) = map f dom.
Proof.
  unfold Np.add, Np.zeros_like.
  induction dom as [|x dom IH]; simpl; [done|].
  by rewrite IH, Qcplus_0_l.
Qed.

Lemma add_add_map (dom acc : list Qc) (f g : Qc → Qc) :
  Np.add (Np.add acc (map f dom)) (map g dom)
  = Np.add acc (map (λ x, f x + g x) dom).
Proof.
  unfold Np.add. revert acc.
  induction dom as [|x dom IH]; intros [|a acc]; simpl; try done.
  by rewrite IH, Qcplus_assoc.
Qed.

Lemma add_map_0 (dom acc : list Qc) :
  length acc = length dom → Np.add acc (map (λ _, 0) dom) = acc.
Proof.
  unfold Np.add. revert acc.
  induction dom as [|x dom IH]; intros [|a acc] Hlen; simpl in *; try done.
  rewrite IH by lia. by rewrite Qcplus_0_r.
Qed.

(** The loop adds to [mean_tpr], at every abscissa, the interpolated TPR of
    every curve that is left. *)
Lemma accumulate_sum (dom : list Qc) (pre : list (list Qc)) (cs : list curve)
    (acc : list Qc) :
  Forall aligned cs → length acc = length dom →
  accumulate dom (pre ++ map fst cs) (map snd cs) (length pre) acc
  = Returns (Np.add acc (map (interp_sum cs) dom)).
Proof.
  intros Hcs. revert pre acc.
  induction Hcs as [|c cs Hc Hcs IH]; intros pre acc Hlen; simpl.
  { by rewrite add_map_0. }
  rewrite list_lookup_middle by done.
  rewrite interp_aligned by done. simpl.
  specialize (IH (pre ++ [c.1]) (Np.add acc (map (Np.interp1 c.1 c.2) dom))).
  rewrite <-(assoc_L (++)), length_app in IH. simpl in IH.
  replace (length pre + 1)%nat with (S (length pre)) in IH by lia.
  rewrite IH.
  - by rewrite add_add_map.
  - unfold Np.add. rewrite length_zip_with, length_map. lia.
Qed.

(** ** The aggregator on well-formed input *)

(** What [calc_macro_roc] returns on well-formed input, in closed form. *)
Lemma calc_macro_roc_returns (cs : list curve) :
  well_formed cs →
  let dom := sorted (concat (map fst cs)) in
  let n := Qc_of_nat (length cs) in
  calc_macro_roc (map fst cs) (map snd cs)
  = Returns (dom,
             map (λ s, s / n) (map (interp_sum cs) dom),
             Np.trapz (map (interp_sum cs) dom) dom / n).
Proof.
  intros (Hne & Hal & H2) dom n. unfold calc_macro_roc. fold dom.
  pose proof (accumulate_sum dom [] cs (Np.zeros_like dom) Hal) as Hacc.
  simpl in Hacc. rewrite Hacc by apply length_replicate.
  rewrite add_zeros. simpl.
  rewrite auc_Sorted; simpl.
  - rewrite length_map. rewrite decide_False by (by destruct cs). done.
  - apply sorted_Sorted.
  - by rewrite length_map.
  - unfold dom. by rewrite sorted_length.
Qed.

(** ** [np.interp] *)

Lemma scan_spec (key : Qc) (rest : list Qc) (i : nat) :
  ∃ c, Np.scan key rest i = (i + c)%nat ∧ (c ≤ length rest)%nat
       ∧ (∀ m, (m < c)%nat → nth m rest 0 ≤ key)
       ∧ (c = length rest ∨ key < nth c rest 0).
Proof.
  revert i. induction rest as [|a rest IH]; intros i; simpl.
  { exists 0%nat. repeat split; [lia | lia | intros; lia | by left]. }
  case_decide as Ha.
  - destruct (IH (S i)) as (c & Hc & Hlen & Hle & Hend).
    exists (S c). repeat split; [lia | lia | |].
    + intros [|m] Hm; [done | apply Hle; lia].
    + destruct Hend as [->|Hlt]; [by left | by right].
  - exists 0%nat. repeat split; [lia | lia | intros; lia |].
    right. by apply Qclt_nge.
Qed.

(** Within the range of the sample points the search finds an index [j] with
    [xp[j] <= key], and with [key < xp[j+1]] unless [j] is the last index. *)
Lemma search_within (key : Qc) (xp : list Qc) :
  xp ≠ [] →
  ¬ nth (length xp - 1) xp 0 < key → ¬ key < nth 0 xp 0 →
  ∃ j, Np.search key xp = Np.At j ∧ (j < length xp)%nat
       ∧ nth j xp 0 ≤ key
       ∧ (S j = length xp ∨ key < nth (S j) xp 0).
Proof.
  intros Hne Hlast Hfirst. unfold Np.search.
  rewrite !decide_False by done.
  destruct xp as [|a0 rest]; [done|]. simpl drop. rewrite drop_0.
  destruct (scan_spec key rest 1) as (c & -> & Hlen & Hle & Hend).
  exists c. replace (1 + c - 1)%nat with c by lia.
  repeat split; simpl; [lia | |].
  - destruct c as [|c]; [by apply Qcle_ngt | apply Hle; lia].
  - destruct Hend as [->|Hlt]; [by left | by right].
Qed.

(** At one of its own sample points an ascending curve is interpolated to a
    TPR value that it has at that FPR value. *)
Lemma interp1_own_point (xp fp : list Qc) (k : nat) :
  Sorted Qcle xp → (k < length xp)%nat →
  ∃ j, (k ≤ j < length xp)%nat ∧ nth j xp 0 = nth k xp 0
       ∧ Np.interp1 xp fp (nth k xp 0) = nth j fp 0.
Proof.
  intros Hs Hk. unfold Np.interp1.
  case_decide as Hone.
  { exists 0%nat. assert (k = 0%nat) as -> by lia.
    split_and!; [lia | lia | done |].
    rewrite !decide_False; [done | |]; apply (irreflexivity Qclt). }
  destruct (search_within (nth k xp 0) xp) as (j & -> & Hj & Hle & Hend).
  - intros ->. simpl in Hk. lia.
  - apply Qcle_ngt, Sorted_nth_le; [done | lia | lia].
  - apply Qcle_ngt, Sorted_nth_le; [done | lia | lia].
  - assert (k ≤ j)%nat as Hkj.
    { destruct Hend as [Hend|Hlt]; [lia|].
      destruct (decide (k ≤ j)%nat) as [|Hn]; [done|].
      assert (S j < length xp)%nat by lia.
      apply Qclt_nge in Hlt. destruct Hlt.
      apply Sorted_nth_le; [done | lia | lia]. }
    assert (nth j xp 0 = nth k xp 0) as Heq.
    { apply (anti_symm Qcle); [done|]. by apply Sorted_nth_le. }
    exists j. split_and!; [done | done | done |].
    case_decide; [done|]. by rewrite decide_True.
Qed.

(** Left of the first sample point: the first TPR value. *)
Lemma interp1_below (xp fp : list Qc) (x : Qc) :
  Sorted Qcle xp → xp ≠ [] → x < nth 0 xp 0 →
  Np.interp1 xp fp x = nth 0 fp 0.
Proof.
  intros Hs Hne Hx. unfold Np.interp1.
  case_decide; [by rewrite decide_True|].
  unfold Np.search. rewrite decide_False; [by rewrite decide_True|].
  intros Hlast. apply (irreflexivity Qclt x).
  eapply Qclt_le_trans; [done|].
  etrans; [|by apply Qclt_le_weak].
  apply Sorted_nth_le; [done | lia |]. destruct xp; [done | simpl; lia].
Qed.

(** Right of the last sample point: the last TPR value. *)
Lemma interp1_above (xp fp : list Qc) (x : Qc) :
  nth (length xp - 1) xp 0 < x →
  Np.interp1 xp fp x = nth (length fp - 1) fp 0.
Proof.
  intros Hx. unfold Np.interp1.
  case_decide as Hone.
  - rewrite Hone in Hx. simpl in Hx.
    rewrite decide_False; [by rewrite decide_True|].
    intros Hlt. apply (irreflexivity Qclt x). by etrans.
  - unfold Np.search. by rewrite decide_True.
Qed.

(** A curve of one point is interpolated to the TPR of that point. *)
Lemma interp1_one_point (a b x : Qc) : Np.interp1 [a] [b] x = b.
Proof.
  unfold Np.interp1. simpl. by repeat case_decide.
Qed.

Lemma map_nth_ext (g : Qc → Qc) (l t : list Qc) :
  length t = length l →
  (∀ k, (k < length l)%nat → g (nth k l 0) = nth k t 0) → map g l = t.
Proof.
  intros Hlen Hk. apply (nth_ext _ _ (g 0) 0).
  - by rewrite length_map.
  - intros k Hlt. rewrite length_map in Hlt. rewrite map_nth. by apply Hk.
Qed.

(** ** The shared domain *)

Lemma length_concat_sum (ls : list (list Qc)) :
  length (concat ls) = sum_list_with length ls.
Proof.
  induction ls as [|l ls IH]; simpl; [done|].
  by rewrite length_app, IH.
Qed.

Lemma elem_of_concat_curves (cs : list curve) (x : Qc) :
  x ∈ concat (map fst cs) ↔ ∃ c, c ∈ cs ∧ x ∈ c.1.
Proof.
  induction cs as [|c cs IH]; simpl.
  - split; [by intros ?%elem_of_nil | by intros (c & ?%elem_of_nil & _)].
  - rewrite elem_of_app, IH. split.
    + intros [Hx|(c' & Hc' & Hx)]; [exists c | exists c']; split; try done.
      * by left.
      * by right.
    + intros (c' & [->|Hc']%elem_of_cons & Hx); [by left|].
      right. by exists c'.
Qed.

(** C1, as amended: on well-formed input (at least one curve, every curve
    aligned, two FPR values or more in all) [calc_macro_roc] returns, and
    the first component of its result is the ascending rearrangement of the
    FPR values of all curves with every duplicate kept: it is in ascending
    order, it is a permutation of the concatenated FPR lists, its length is
    the sum of their lengths, and its members are the members of the
    curves. *)
Theorem macro_domain_sorted_concat (cs : list curve) :
  well_formed cs →
  ∃ dom macro area,
    calc_macro_roc (map fst cs) (map snd cs) = Returns (dom, macro, area)
    ∧ dom = sorted (concat (map fst cs))
    ∧ Sorted Qcle dom
    ∧ dom ≡ₚ concat (map fst cs)
    ∧ length dom = sum_list_with length (map fst cs)
    ∧ ∀ x, x ∈ dom ↔ ∃ c, c ∈ cs ∧ x ∈ c.1.
Proof.
  intros Hwf. pose proof (calc_macro_roc_returns cs Hwf) as Hret.
  simpl in Hret. eexists _, _, _. split; [exact Hret|].
  split_and!.
  - done.
  - apply sorted_Sorted.
  - apply sorted_Permutation.
  - by rewrite sorted_length, length_concat_sum.
  - intros x. by rewrite sorted_Permutation, elem_of_concat_curves.
Qed.

Lemma macro_domain_sorted_concat_witness :
  well_formed two_diagonals
  ∧ ∃ dom macro area,
      calc_macro_roc (map fst two_diagonals) (map snd two_diagonals)
      = Returns (dom, macro, area)
      ∧ dom = sorted (concat (map fst two_diagonals))
      ∧ Sorted Qcle dom
      ∧ dom ≡ₚ concat (map fst two_diagonals)
      ∧ length dom = sum_list_with length (map fst two_diagonals)
      ∧ ∀ x, x ∈ dom ↔ ∃ c, c ∈ two_diagonals ∧ x ∈ c.1.
Proof.
  assert (well_formed two_diagonals) as Hwf.
  { split_and!; [done | by repeat constructor | simpl; lia]. }
  split; [exact Hwf|].
  exact (macro_domain_sorted_concat two_diagonals Hwf).
Defined.

(** C1 as it is stated fails: two folds with the FPR values 0 and 1 give the
    domain 0, 0, 1, 1, of four points, while the sorted set union has the two
    points 0, 1. *)
Lemma macro_domain_keeps_duplicates :
  calc_macro_roc [[0; 1]; [0; 1]] [[0; 1]; [0; 1]]
  = Returns ([0; 0; 1; 1], [0; 0; 1; 1], half)
  ∧ sorted_union [[0; 1]; [0; 1]] = [0; 1]
  ∧ [0; 0; 1; 1] ≠ sorted_union [[0; 1]; [0; 1]]
  ∧ length [0; 0; 1; 1] ≠ length (remove_dups (concat [[0; 1]; [0; 1]])).
Proof.
  assert (sorted_union [[0; 1]; [0; 1]] = [0; 1]) as Hu by qc_eval.
  split_and!; [qc_eval | done | by rewrite Hu | vm_compute; lia].
Qed.

(** ** The macro TPR and the area *)

(** C2, as amended: on well-formed input [calc_macro_roc] returns; the macro
    TPR sequence is the pointwise average of the interpolated TPR sequences,
    and the area is the trapezoidal integral of the summed TPR sequence over
    the shared domain divided by the fold count, which is the trapezoidal
    integral of the macro TPR sequence itself, divided by nothing more. *)
Theorem macro_tpr_average_and_area (cs : list curve) :
  well_formed cs →
  ∃ dom macro area,
    calc_macro_roc (map fst cs) (map snd cs) = Returns (dom, macro, area)
    ∧ macro = pointwise_average cs dom
    ∧ area = Np.trapz (pointwise_sum cs dom) dom / Qc_of_nat (length cs)
    ∧ area = Np.trapz macro dom.
Proof.
  intros Hwf. pose proof (calc_macro_roc_returns cs Hwf) as Hret.
  simpl in Hret. eexists _, _, _. split; [exact Hret|].
  unfold pointwise_average, pointwise_sum. split_and!.
  - by rewrite map_map.
  - done.
  - by rewrite trapz_div.
Qed.

Lemma macro_tpr_average_and_area_witness :
  well_formed perfect_and_random
  ∧ ∃ dom macro area,
      calc_macro_roc (map fst perfect_and_random) (map snd perfect_and_random)
      = Returns (dom, macro, area)
      ∧ macro = pointwise_average perfect_and_random dom
      ∧ area = Np.trapz (pointwise_sum perfect_and_random dom) dom
               / Qc_of_nat (length perfect_and_random)
      ∧ area = Np.trapz macro dom.
Proof.
  assert (well_formed perfect_and_random) as Hwf.
  { split_and!; [done | by repeat constructor | simpl; lia]. }
  split; [exact Hwf|].
  exact (macro_tpr_average_and_area perfect_and_random Hwf).
Defined.

(** C2 as it is stated fails in its second half: for a perfect and a random
    fold the returned area is 3/4, the integral of the macro TPR sequence,
    and not that integral divided by the fold count, 3/8. *)
Lemma macro_area_divided_once :
  calc_macro_roc [[0; 0; 1]; [0; 1]] [[0; 1; 1]; [0; 1]]
  = Returns ([0; 0; 0; 1; 1], [half; half; half; 1; 1], Q2Qc (3 # 4))
  ∧ Np.trapz [half; half; half; 1; 1] [0; 0; 0; 1; 1] / Qc_of_nat 2 = Q2Qc (3 # 8)
  ∧ Q2Qc (3 # 4) ≠ Np.trapz [half; half; half; 1; 1] [0; 0; 0; 1; 1] / Qc_of_nat 2.
Proof.
  assert (Np.trapz [half; half; half; 1; 1] [0; 0; 0; 1; 1] / Qc_of_nat 2
          = Q2Qc (3 # 8)) as Hq by qc_eval.
  split_and!; [qc_eval | done | by rewrite Hq].
Qed.

(** C4: a perfect fold averaged with a random fold has the macro area 3/4. *)
Theorem perfect_and_random_area :
  calc_macro_roc [[0; 0; 1]; [0; 1]] [[0; 1; 1]; [0; 1]]
  = Returns ([0; 0; 0; 1; 1], [half; half; half; 1; 1], Q2Qc (3 # 4)).
Proof. qc_eval. Qed.

(** ** One curve *)

(** C3, as amended: for one curve with ascending FPR values, two points or
    more, as many TPR values, and equal TPR values wherever two of its points
    share their FPR value (so for every strictly ascending curve),
    [calc_macro_roc] returns the FPR and the TPR sequence of the curve as
    they are, with the area of the trapezoidal rule on its points. *)
Theorem single_curve_identity (f t : list Qc) :
  Sorted Qcle f → length t = length f → (2 ≤ length f)%nat →
  (∀ i j, (i < length f)%nat → (j < length f)%nat →
          nth i f 0 = nth j f 0 → nth i t 0 = nth j t 0) →
  calc_macro_roc [f] [t] = Returns (f, t, Np.trapz t f)
  ∧ Sk.auc f t = Returns (Np.trapz t f).
Proof.
  intros Hs Hlen H2 Hdup.
  assert (well_formed [(f, t)]) as Hwf.
  { split_and!; [done | | simpl; rewrite length_app; simpl; lia].
    constructor; [|done]. split; [|done]. simpl. intros ->. simpl in H2. lia. }
  pose proof (calc_macro_roc_returns _ Hwf) as Hret. simpl in Hret.
  rewrite app_nil_r, (sorted_id f Hs) in Hret.
  assert (map (interp_sum [(f, t)]) f = t) as Hmap.
  { apply map_nth_ext; [done|]. intros k Hk.
    unfold interp_sum, sum_Qc. simpl. rewrite Qcplus_0_r.
    destruct (interp1_own_point f t k Hs Hk) as (j & Hj & Heq & ->).
    apply Hdup; [lia | done | done]. }
  rewrite Hmap, Qc_of_nat_1, Qcdiv_1 in Hret.
  split; [|by apply auc_Sorted].
  rewrite Hret. do 3 f_equal.
  rewrite <-(map_id t) at 2. apply map_ext. intros s. apply Qcdiv_1.
Qed.

Lemma single_curve_identity_witness :
  Sorted Qcle diagonal ∧ length diagonal = length diagonal
  ∧ (2 ≤ length diagonal)%nat
  ∧ calc_macro_roc [diagonal] [diagonal]
    = Returns (diagonal, diagonal, Np.trapz diagonal diagonal)
  ∧ Sk.auc diagonal diagonal = Returns (Np.trapz diagonal diagonal).
Proof.
  assert (Sorted Qcle diagonal) as Hs.
  { repeat constructor; by vm_compute. }
  split_and!; [exact Hs | done | simpl; lia | |];
    apply (single_curve_identity diagonal diagonal);
    try done; simpl; try lia; intros i j Hi Hj Hij; by rewrite Hij.
Defined.

(** C3 as it is stated fails where a curve has a vertical segment: of the
    points that share an FPR value the interpolation keeps the TPR of the
    last one.  The curve (0, 0), (1/2, 1/2), (1/2, 1), (1, 1) has the area
    5/8; the aggregator returns the TPR sequence 0, 1, 1, 1 and the area 3/4.
    A curve of one point is rejected by [auc]. *)
Lemma single_curve_vertical_segment :
  calc_macro_roc [[0; half; half; 1]] [[0; half; 1; 1]]
  = Returns ([0; half; half; 1], [0; 1; 1; 1], Q2Qc (3 # 4))
  ∧ Sk.auc [0; half; half; 1] [0; half; 1; 1] = Returns (Q2Qc (5 # 8))
  ∧ Sorted Qcle [0; half; half; 1]
  ∧ [0; 1; 1; 1] ≠ [0; half; 1; 1]
  ∧ Q2Qc (3 # 4) ≠ Q2Qc (5 # 8)
  ∧ calc_macro_roc [[0]] [[1]] = Raises ValueError.
Proof.
  split_and!; [qc_eval | qc_eval | repeat constructor; by vm_compute
              | by vm_compute | by vm_compute | by vm_compute].
Qed.

(** ** Clamping outside the range of a curve *)

(** C7, as amended: for a curve with ascending FPR values, at least one
    point and as many TPR values, [np.interp] returns a value for every
    point of the domain; left of the first FPR value it is the first TPR
    value, right of the last FPR value it is the last TPR value, and for a
    curve of exactly one point it is the TPR value of that point
    everywhere. *)
Theorem interp_clamps (dom xp fp : list Qc) :
  Sorted Qcle xp → xp ≠ [] → length fp = length xp →
  ∃ v, Np.interp dom xp fp = Returns v ∧ length v = length dom
       ∧ ∀ k x, dom !! k = Some x →
           (x < nth 0 xp 0 → v !! k = Some (nth 0 fp 0))
           ∧ (nth (length xp - 1) xp 0 < x
              → v !! k = Some (nth (length fp - 1) fp 0))
           ∧ (length xp = 1%nat → v !! k = Some (nth 0 fp 0)).
Proof.
  intros Hs Hne Hlen. exists (map (Np.interp1 xp fp) dom).
  split_and!.
  - apply (interp_aligned dom (xp, fp)). by split.
  - apply length_map.
  - intros k x Hk.
    assert (map (Np.interp1 xp fp) dom !! k = Some (Np.interp1 xp fp x)) as ->.
    { change (map (Np.interp1 xp fp) dom) with (Np.interp1 xp fp <$> dom).
      by rewrite list_lookup_fmap, Hk. }
    split_and!.
    + intros Hx. by rewrite interp1_below.
    + intros Hx. by rewrite interp1_above.
    + intros Hone. f_equal.
      destruct xp as [|a [|? ?]]; try done.
      destruct fp as [|b [|? ?]]; try done.
      apply interp1_one_point.
Qed.

Lemma interp_clamps_witness :
  Sorted Qcle one_point_fpr ∧ one_point_fpr ≠ []
  ∧ length one_point_tpr = length one_point_fpr
  ∧ ∃ v, Np.interp unit_domain one_point_fpr one_point_tpr = Returns v
         ∧ length v = length unit_domain
         ∧ ∀ k x, unit_domain !! k = Some x →
             (x < nth 0 one_point_fpr 0 → v !! k = Some (nth 0 one_point_tpr 0))
             ∧ (nth (length one_point_fpr - 1) one_point_fpr 0 < x
                → v !! k = Some (nth (length one_point_tpr - 1) one_point_tpr 0))
             ∧ (length one_point_fpr = 1%nat
                → v !! k = Some (nth 0 one_point_tpr 0)).
Proof.
  split_and!; [repeat constructor | done | done |].
  apply (interp_clamps unit_domain one_point_fpr one_point_tpr);
    [repeat constructor | done | done].
Defined.

(** C7 as it is stated fails for the curve of no point, which has fewer than
    two points: [np.interp] rejects it, and so does the aggregator. *)
Lemma interp_rejects_empty_curve :
  Np.interp [0; 1] [] [] = Raises ValueError
  ∧ calc_macro_roc [[]; [0; 1]] [[]; [0; 1]] = Raises ValueError.
Proof. split; by vm_compute. Qed.

(** ** No curve at all *)

Lemma calc_macro_roc_no_tpr (fpr : list (list Qc)) :
  calc_macro_roc fpr [] = Raises ValueError ∨ calc_macro_roc fpr [] = NotANumber.
Proof.
  unfold calc_macro_roc. simpl.
  destruct (Sk.auc _ _) as [a|e|] eqn:Hauc; simpl; [by right | | by right].
  left. unfold Sk.auc in Hauc. repeat case_decide; congruence.
Qed.

(** C9, as amended: [calc_macro_roc] on no curve fails, and the failure is
    the [ValueError] of [auc], which takes no abscissa of fewer than two
    points; the division by the fold count is not reached.  Whatever the FPR
    values, a call with no TPR sequence returns no result. *)
Theorem calc_macro_roc_empty :
  calc_macro_roc [] [] = Raises ValueError
  ∧ ∀ fpr r, calc_macro_roc fpr [] ≠ Returns r.
Proof.
  split; [by vm_compute|].
  intros fpr r. by destruct (calc_macro_roc_no_tpr fpr) as [-> | ->].
Qed.

(** C9 as it is stated names a division by zero as the failure: it is not. *)
Lemma calc_macro_roc_empty_not_zero_division :
  calc_macro_roc [] [] ≠ Raises ZeroDivisionError.
Proof. by vm_compute. Qed.

(** ** The reference serialisation *)

Lemma string_to_pos_to_string (p : positive) :
  string_to_pos (pos_to_string p) = Some p.
Proof. induction p as [p IH|p IH|]; simpl; [by rewrite IH..|done]. Qed.

Lemma reference_round_trip (r : results) :
  reference_loads (reference_dumps r) = Some r.
Proof.
  unfold reference_loads, reference_dumps.
  rewrite string_to_pos_to_string. simpl. apply decode_encode.
Qed.

(** ** The pipeline *)

Section pipeline_properties.

Context `{!Host}.

Lemma settles_ret {A} (a : A) : settles (mret a).
Proof. intros fs. exists fs. left. by exists a. Qed.

Lemma settles_raise {A} (e : exn) : settles (raise (A:=A) e).
Proof. intros fs. exists fs. right. by exists e. Qed.

Lemma settles_bind {A B} (m : prog A) (k : A → prog B) :
  settles m → (∀ a, settles (k a)) → settles (m ≫= k).
Proof.
  intros Hm Hk fs. unfold mbind, prog_bind.
  destruct (Hm fs) as (fs1 & [[a ->] | [e ->]]).
  - apply Hk.
  - exists fs1. right. by exists e.
Qed.

Lemma settles_write (name text : string) : settles (write name text).
Proof. intros fs. eexists. left. by exists (). Qed.

Lemma settles_open_w (name : string) : settles (open_w name).
Proof. intros fs. eexists. left. by exists (). Qed.

Lemma settles_write_rows name f rest i : settles (write_rows name f rest i).
Proof.
  revert i. induction rest as [|[real_label domain] rest IH]; intros i; simpl.
  - apply settles_ret.
  - destruct (y f !! i); [|apply settles_raise].
    destruct (probs f !! i); [|apply settles_raise].
    apply settles_bind; [apply settles_write | intros _; apply IH].
Qed.

Lemma settles_write_folds resultset folds nfold :
  settles (write_folds resultset folds nfold).
Proof.
  revert nfold. induction folds as [|f folds IH]; intros nfold; simpl.
  - apply settles_ret.
  - repeat (apply settles_bind; [|intros _]);
      auto using settles_open_w, settles_write, settles_write_rows.
Qed.

(** The walk over the result sets raises when one of them is [None]. *)
Lemma write_resultsets_absent items model fs :
  (model, None) ∈ items →
  ∃ e fs', write_resultsets items fs = (Raises e, fs').
Proof.
  revert fs. induction items as [|[resultset r] items IH]; intros fs Hin.
  { by apply elem_of_nil in Hin. }
  simpl. unfold mbind, prog_bind.
  destruct r as [folds|]; [|by exists TypeError, fs].
  destruct (settles_write_folds resultset folds 0 fs)
    as (fs1 & [[[] ->] | [e ->]]).
  - apply IH. apply elem_of_cons in Hin as [Heq|Hin]; [congruence | done].
  - by exists e, fs1.
Qed.

Lemma write_results_to_csv_absent (res : results) model fs :
  res !! model = Some None →
  ∃ e fs', write_results_to_csv res fs = (Raises e, fs').
Proof.
  intros Hres. apply (write_resultsets_absent _ model).
  by apply elem_of_map_to_list.
Qed.

(** [run_experiments] raises (an epoch count that is no number), or
    returns the results of exactly the models that are switched on. *)
Lemma run_experiments_cases isbigram islstm nfolds :
  (∃ e, run_experiments isbigram islstm nfolds = Raises e)
  ∨ (∃ b l, run_experiments isbigram islstm nfolds = Returns (b, l)
            ∧ (is_Some b ↔ truthy isbigram = true)
            ∧ (is_Some l ↔ truthy islstm = true)).
Proof.
  unfold run_experiments, environ_int.
  destruct (truthy isbigram), (truthy islstm); simpl;
    repeat (match goal with
            | |- context [match ?o with _ => _ end] => destruct o; simpl
            end);
    try (left; eexists; reflexivity);
    right; eexists _, _; (split; [reflexivity|]);
    split; split; try done; try (intros ?; eexists; reflexivity);
    intros [? ?]; done.
Qed.

(** Whatever branch has bound [results]: with a [None] entry in it,
    [create_figs] raises. *)
Lemma create_figs_absent_entry isbigram islstm nfolds force fs res fs1 model :
  load_or_run isbigram islstm nfolds force fs = (Returns res, fs1) →
  res !! model = Some None →
  ∃ e fs', create_figs isbigram islstm nfolds force fs = (Raises e, fs').
Proof.
  intros Hload Hmodel. unfold create_figs.
  unfold mbind at 1. unfold prog_bind at 1. rewrite Hload.
  unfold mbind at 1. unfold prog_bind at 1.
  destruct (write_results_to_csv_absent res model fs1 Hmodel)
    as (e & fs2 & ->).
  by exists e, fs2.
Qed.

(** The branch that runs the experiments raises, or binds [results] to the
    dict of what [run_experiments] has returned. *)
Lemma regenerate_cases isbigram islstm nfolds fs :
  (∃ e, regenerate isbigram islstm nfolds fs = (Raises e, fs))
  ∨ (∃ b l fs1,
       run_experiments isbigram islstm nfolds = Returns (b, l)
       ∧ regenerate isbigram islstm nfolds fs
         = (Returns (<["bigram" := b]> (<["lstm" := l]> ∅)), fs1)).
Proof.
  unfold regenerate, mbind, prog_bind, lift.
  destruct (run_experiments_cases isbigram islstm nfolds)
    as [[e ->] | (b & l & -> & _)]; [left; by exists e|].
  right. by eexists b, l, _.
Qed.

(** C5, on the code: a run that switches a model off and computes its
    results does not complete.  The entry of that model in [results] is
    [None], and [write_results_to_csv] takes its length. *)
Theorem create_figs_absent_model_raises isbigram islstm nfolds force fs :
  truthy isbigram = false ∨ truthy islstm = false →
  truthy force = true ∨ isfile RESULT_FILE fs = false →
  ∃ e fs', create_figs isbigram islstm nfolds force fs = (Raises e, fs').
Proof.
  intros Hoff Hregen.
  assert (load_or_run isbigram islstm nfolds force fs
          = regenerate isbigram islstm nfolds fs) as Hload.
  { unfold load_or_run.
    destruct Hregen as [-> | ->]; [done | by rewrite orb_true_r]. }
  destruct (regenerate_cases isbigram islstm nfolds fs)
    as [[e He] | (b & l & fs1 & Hrun & Hres)].
  { exists e, fs. unfold create_figs.
    unfold mbind at 1. unfold prog_bind at 1. by rewrite Hload, He. }
  rewrite <-Hload in Hres.
  destruct (run_experiments_cases isbigram islstm nfolds)
    as [[e He] | (b' & l' & Hrun' & Hb & Hl)]; [congruence|].
  rewrite Hrun in Hrun'. simplify_eq.
  destruct Hoff as [Hoff|Hoff].
  - apply (create_figs_absent_entry _ _ _ _ _ _ _ "bigram" Hres).
    rewrite lookup_insert_eq. f_equal.
    destruct b'; [|done]. rewrite Hoff in Hb. destruct Hb as [Hb _].
    discriminate Hb. by eexists.
  - apply (create_figs_absent_entry _ _ _ _ _ _ _ "lstm" Hres).
    rewrite lookup_insert_ne by done. rewrite lookup_insert_eq. f_equal.
    destruct l'; [|done]. rewrite Hoff in Hl. destruct Hl as [Hl _].
    discriminate Hl. by eexists.
Qed.

(** C8: with the cache file in place and [force] false, [results] is what
    the cache file holds, and [create_figs] does the same whatever
    [isbigram], [islstm] and [nfolds] are: the same outcome and the same
    files. *)
Theorem create_figs_cached_ignores_arguments
    isbigram islstm nfolds isbigram' islstm' nfolds' force force' fs :
  truthy force = false → truthy force' = false →
  isfile RESULT_FILE fs = true →
  create_figs isbigram islstm nfolds force fs
  = create_figs isbigram' islstm' nfolds' force' fs
  ∧ load_or_run isbigram islstm nfolds force fs = cache_load fs.
Proof.
  intros Hforce Hforce' Hfile.
  assert (∀ b l n, load_or_run b l n force fs = cache_load fs) as Hload.
  { intros b l n. unfold load_or_run. by rewrite Hforce, Hfile. }
  assert (∀ b l n, load_or_run b l n force' fs = cache_load fs) as Hload'.
  { intros b l n. unfold load_or_run. by rewrite Hforce', Hfile. }
  split; [|apply Hload].
  unfold create_figs, mbind, prog_bind. by rewrite Hload, Hload'.
Qed.

(** C6: for every [results] that [pickle] itself takes there and back,
    also one with a [None] entry, the statement that stores it leaves the
    cache file in place, and the statement that loads the cache file then
    yields that value. *)
Theorem cache_round_trip (X : results) fs :
  pickle_loads (pickle_dumps X) = Some X →
  ∃ fs', cache_store X fs = (Returns (), fs')
         ∧ isfile RESULT_FILE fs' = true
         ∧ cache_load fs' = (Returns X, fs').
Proof.
  intros Hpickle. unfold cache_store, cache_load, isfile.
  unfold mbind, prog_bind, open_w, write. eexists. split; [done|].
  rewrite !lookup_insert_eq. simpl.
  change ("" +:+ pickle_dumps X) with (pickle_dumps X). rewrite Hpickle.
  by split.
Qed.


End pipeline_properties.

Lemma create_figs_absent_model_raises_witness :
  (truthy (PyBool true) = false ∨ truthy (PyBool false) = false)
  ∧ (truthy (PyBool false) = true
     ∨ isfile (@RESULT_FILE reference_host) ∅ = false)
  ∧ ∃ e fs',
      @create_figs reference_host (PyBool true) (PyBool false) 1 (PyBool false) ∅
      = (Raises e, fs').
Proof.
  split_and!; [by right | by right |].
  apply (@create_figs_absent_model_raises reference_host); by right.
Defined.

(** On the reference host the run with the bigram model alone ends in the
    [TypeError], with no file for the LSTM model and no figure. *)
Example create_figs_bigram_only :
  let run := @create_figs reference_host (PyBool true) (PyBool false) 1
               (PyBool false) ∅ in
  run.1 = Raises TypeError
  ∧ run.2 !! "lstm-0-resultset.csv" = None
  ∧ run.2 !! "results.png" = None.
Proof. by vm_compute. Qed.

(** The drawing of the figure uses the variables of both models. *)
Example plot_absent_model : plot "LSTM" None = Raises UnboundLocalError.
Proof. done. Qed.

Lemma create_figs_cached_ignores_arguments_witness :
  truthy (PyBool false) = false ∧ truthy (PyStr "") = false
  ∧ isfile (@RESULT_FILE reference_host)
      (<["results.pkl" := "cached"]> ∅) = true
  ∧ @create_figs reference_host (PyBool true) (PyBool true) 10 (PyBool false)
      (<["results.pkl" := "cached"]> ∅)
    = @create_figs reference_host (PyStr "") (PyBool false) 1 (PyStr "")
        (<["results.pkl" := "cached"]> ∅)
  ∧ @load_or_run reference_host (PyBool true) (PyBool true) 10 (PyBool false)
      (<["results.pkl" := "cached"]> ∅)
    = @cache_load reference_host (<["results.pkl" := "cached"]> ∅).
Proof.
  split; [done|]. split; [done|]. split; [by vm_compute|].
  apply (@create_figs_cached_ignores_arguments reference_host);
    [done | done | by vm_compute].
Defined.

Lemma cache_round_trip_witness :
  @pickle_loads reference_host (@pickle_dumps reference_host bigram_only)
  = Some bigram_only
  ∧ ∃ fs', @cache_store reference_host bigram_only ∅ = (Returns (), fs')
           ∧ isfile (@RESULT_FILE reference_host) fs' = true
           ∧ @cache_load reference_host fs' = (Returns bigram_only, fs').
Proof.
  split; [apply reference_round_trip|].
  apply (@cache_round_trip reference_host). apply reference_round_trip.
Defined.

(** * Further properties of the aggregator *)

(** ** Which inputs the aggregator takes *)

Lemma interp_misaligned (dom : list Qc) (c : curve) :
  ¬ aligned c → Np.interp dom c.1 c.2 = Raises ValueError.
Proof.
  intros Hc. unfold Np.interp.
  case_decide as Hlen; [done|].
  rewrite decide_False; [done|].
  intros Heq. apply Hc. split; [|done]. intros Hnil. by rewrite Hnil in Hlen.
Qed.

(** The loop stops with the [ValueError] of [interp] at the first curve that
    is not aligned. *)
Lemma accumulate_misaligned (dom : list Qc) (pre more : list (list Qc))
    (cs : list curve) (acc : list Qc) :
  Exists (λ c, ¬ aligned c) cs →
  accumulate dom (pre ++ map fst cs ++ more) (map snd cs) (length pre) acc
  = Raises ValueError.
Proof.
  intros Hex. revert pre acc.
  induction cs as [|c cs IH]; intros pre acc; [by apply Exists_nil in Hex|].
  simpl. rewrite list_lookup_middle by done.
  destruct (decide (aligned c)) as [Hc|Hc].
  - rewrite interp_aligned by done. simpl.
    apply Exists_cons in Hex as [Hex|Hex]; [done|].
    specialize (IH Hex (pre ++ [c.1])).
    rewrite <-(assoc_L (++)), length_app in IH. simpl in IH.
    replace (length pre + 1)%nat with (S (length pre)) in IH by lia.
    apply IH.
  - by rewrite interp_misaligned.
Qed.

(** The loop over aligned curves, with FPR lists before and after the ones
    it reads. *)
Lemma accumulate_sum_surplus (dom : list Qc) (pre more : list (list Qc))
    (cs : list curve) (acc : list Qc) :
  Forall aligned cs → length acc = length dom →
  accumulate dom (pre ++ map fst cs ++ more) (map snd cs) (length pre) acc
  = Returns (Np.add acc (map (interp_sum cs) dom)).
Proof.
  intros Hcs. revert pre acc.
  induction Hcs as [|c cs Hc Hcs IH]; intros pre acc Hlen; simpl.
  { by rewrite add_map_0. }
  rewrite list_lookup_middle by done.
  rewrite interp_aligned by done. simpl.
  specialize (IH (pre ++ [c.1]) (Np.add acc (map (Np.interp1 c.1 c.2) dom))).
  rewrite <-(assoc_L (++)), length_app in IH. simpl in IH.
  replace (length pre + 1)%nat with (S (length pre)) in IH by lia.
  rewrite IH.
  - by rewrite add_add_map.
  - unfold Np.add. rewrite length_zip_with, length_map. lia.
Qed.

Lemma auc_too_short (x y : list Qc) :
  length x = length y → (length x < 2)%nat → Sk.auc x y = Raises ValueError.
Proof.
  intros Hlen H2. unfold Sk.auc.
  rewrite decide_True by done. by rewrite decide_True.
Qed.

Lemma calc_macro_roc_not_well_formed (cs : list curve) :
  ¬ well_formed cs →
  calc_macro_roc (map fst cs) (map snd cs) = Raises ValueError.
Proof.
  intros Hwf.
  destruct (decide (Forall aligned cs)) as [Hal|Hal].
  - unfold calc_macro_roc.
    set (dom := sorted (concat (map fst cs))).
    pose proof (accumulate_sum dom [] cs (Np.zeros_like dom) Hal) as Hacc.
    simpl in Hacc. rewrite Hacc by apply length_replicate.
    rewrite add_zeros. simpl.
    rewrite auc_too_short; [done | by rewrite length_map |].
    unfold dom. rewrite sorted_length.
    destruct (decide (cs = [])) as [->|Hne]; [simpl; lia|].
    destruct (decide (2 ≤ length (concat (map fst cs)))%nat); [|lia].
    destruct Hwf. by split_and!.
  - apply not_Forall_Exists in Hal; [|apply _].
    unfold calc_macro_roc.
    pose proof (accumulate_misaligned (sorted (concat (map fst cs))) [] []
                  cs (Np.zeros_like (sorted (concat (map fst cs)))) Hal) as Hacc.
    simpl in Hacc. rewrite app_nil_r in Hacc. by rewrite Hacc.
Qed.

(** X1: paired curves are accepted exactly when they are well-formed; every
    other input ends in a [ValueError], of [interp] for a curve that is empty
    or has unequal lengths, of [auc] for no curve at all or for a single
    point. *)
Theorem calc_macro_roc_outcome (cs : list curve) :
  (well_formed cs
   ∧ ∃ r, calc_macro_roc (map fst cs) (map snd cs) = Returns r)
  ∨ (¬ well_formed cs
     ∧ calc_macro_roc (map fst cs) (map snd cs) = Raises ValueError).
Proof.
  destruct (decide (well_formed cs)) as [Hwf|Hwf].
  - left. split; [done|]. eexists. by apply calc_macro_roc_returns.
  - right. split; [done|]. by apply calc_macro_roc_not_well_formed.
Qed.

(** ** More FPR lists than TPR lists, and fewer *)

(** X2: the loop runs over the TPR lists: FPR lists beyond their number add
    their values to the domain, and nothing to the average. *)
Theorem calc_macro_roc_surplus_fpr (cs : list curve) (more : list (list Qc)) :
  cs ≠ [] → Forall aligned cs →
  (2 ≤ length (concat (map fst cs ++ more)))%nat →
  let dom := sorted (concat (map fst cs ++ more)) in
  calc_macro_roc (map fst cs ++ more) (map snd cs)
  = Returns (dom, pointwise_average cs dom,
             Np.trapz (pointwise_sum cs dom) dom / Qc_of_nat (length cs)).
Proof.
  intros Hne Hal H2 dom. unfold calc_macro_roc. fold dom.
  pose proof (accumulate_sum_surplus dom [] more cs (Np.zeros_like dom) Hal)
    as Hacc.
  simpl in Hacc. rewrite Hacc by apply length_replicate.
  rewrite add_zeros. simpl.
  rewrite auc_Sorted; simpl.
  - rewrite length_map. rewrite decide_False by (by destruct cs).
    unfold pointwise_average, pointwise_sum. by rewrite map_map.
  - apply sorted_Sorted.
  - by rewrite length_map.
  - unfold dom. by rewrite sorted_length.
Qed.

Lemma calc_macro_roc_surplus_fpr_witness :
  perfect_and_random ≠ [] ∧ Forall aligned perfect_and_random
  ∧ (2 ≤ length (concat (map fst perfect_and_random ++ [[half]])))%nat
  ∧ calc_macro_roc (map fst perfect_and_random ++ [[half]])
      (map snd perfect_and_random)
    = Returns
        (sorted (concat (map fst perfect_and_random ++ [[half]])),
         pointwise_average perfect_and_random
           (sorted (concat (map fst perfect_and_random ++ [[half]]))),
         Np.trapz
           (pointwise_sum perfect_and_random
              (sorted (concat (map fst perfect_and_random ++ [[half]]))))
           (sorted (concat (map fst perfect_and_random ++ [[half]])))
         / Qc_of_nat (length perfect_and_random)).
Proof.
  split; [done|]. split; [by repeat constructor|]. split; [simpl; lia|].
  apply (calc_macro_roc_surplus_fpr perfect_and_random [[half]]);
    [done | by repeat constructor | simpl; lia].
Defined.

(** X3: a TPR list with no FPR list at its index is an [IndexError], once the
    curves before it have been read. *)
Theorem calc_macro_roc_missing_fpr (cs : list curve) (t : list Qc)
    (extra : list (list Qc)) :
  Forall aligned cs →
  calc_macro_roc (map fst cs) (map snd cs ++ t :: extra) = Raises IndexError.
Proof.
  intros Hal. unfold calc_macro_roc.
  assert (∀ dom pre acc,
    accumulate dom (pre ++ map fst cs) (map snd cs ++ t :: extra)
      (length pre) acc = Raises IndexError) as Hacc.
  { intros dom.
    induction Hal as [|c cs Hc Hcs IH]; intros pre acc; simpl.
    - rewrite app_nil_r. by rewrite lookup_ge_None_2.
    - rewrite list_lookup_middle by done.
      rewrite interp_aligned by done. simpl.
      specialize (IH (pre ++ [c.1])).
      setoid_rewrite <-(assoc_L (++)) in IH.
      setoid_rewrite length_app in IH. simpl in IH.
      replace (length pre + 1)%nat with (S (length pre)) in IH by lia.
      apply IH. }
  by rewrite (Hacc _ []).
Qed.

Lemma calc_macro_roc_missing_fpr_witness :
  Forall aligned perfect_and_random
  ∧ calc_macro_roc (map fst perfect_and_random)
      (map snd perfect_and_random ++ [0; 1] :: [])
    = Raises IndexError.
Proof.
  split; [by repeat constructor|].
  apply (calc_macro_roc_missing_fpr perfect_and_random [0; 1] []).
  by repeat constructor.
Defined.

(** ** The order of the folds *)






(** ** Bounds on the macro TPR and on the area *)

















(** ** Monotone folds give a monotone macro curve *)








(** ** Repeated points of the domain *)










(** ** Identical folds *)










(** * Further properties of the pipeline *)

(** ** Strings and file names *)

#[local] Arguments String.append : simpl nomatch.

Lemma string_app_nil_r (s : string) : s +:+ "" = s.
Proof. induction s as [|a s IH]; simpl; [done | by rewrite IH]. Qed.

Lemma string_app_assoc (s t u : string) : (s +:+ t) +:+ u = s +:+ (t +:+ u).
Proof. induction s as [|a s IH]; simpl; [done | by rewrite IH]. Qed.

Lemma string_app_length (s t : string) :
  String.length (s +:+ t) = (String.length s + String.length t)%nat.
Proof. induction s as [|a s IH]; simpl; [done | by rewrite IH]. Qed.

Lemma string_app_inj_r (s t u : string) : s +:+ u = t +:+ u → s = t.
Proof.
  revert t. induction s as [|a s IH]; intros [|b t] Heq; simpl in *.
  - done.
  - apply (f_equal String.length) in Heq. simpl in Heq.
    rewrite string_app_length in Heq. lia.
  - apply (f_equal String.length) in Heq. simpl in Heq.
    rewrite string_app_length in Heq. lia.
  - injection Heq as -> Heq. f_equal. by apply IH.
Qed.

(** Two ways to split one string: one of the first parts begins the other. *)
Lemma string_app_eq_cases (s1 s2 u v : string) :
  s1 +:+ u = s2 +:+ v →
  (∃ t, s2 = s1 +:+ t ∧ u = t +:+ v) ∨ (∃ t, s1 = s2 +:+ t ∧ v = t +:+ u).
Proof.
  revert s2. induction s1 as [|a s1 IH]; intros s2 Heq; simpl in *.
  { left. by exists s2. }
  destruct s2 as [|b s2]; simpl in *.
  { right. by exists (String a s1). }
  injection Heq as -> Heq.
  destruct (IH s2 Heq) as [(t & -> & ->)|(t & -> & ->)];
    [left | right]; by exists t.
Qed.

Lemma dashless_app (s t : string) :
  dashless (s +:+ t) = dashless s && dashless t.
Proof.
  induction s as [|a s IH]; simpl; [done|].
  by rewrite IH, andb_assoc.
Qed.

Lemma dashless_pretty_N_go (x : N) (s : string) :
  dashless s = true → dashless (pretty_N_go x s) = true.
Proof.
  revert s. induction (N.lt_wf_0 x) as [x _ IH]; intros s Hs.
  destruct (decide (x = 0%N)) as [->|Hx]; [by rewrite pretty_N_go_0|].
  rewrite pretty_N_go_step by lia.
  apply IH; [apply N.div_lt; lia|].
  simpl. rewrite Hs, andb_true_r.
  unfold pretty_N_char. by repeat case_match.
Qed.

Lemma dashless_pretty (n : nat) : dashless (pretty n) = true.
Proof.
  unfold pretty, pretty_nat, pretty, pretty_N.
  case_decide; [done|]. by apply dashless_pretty_N_go.
Qed.

Lemma csv_name_dash (resultset : string) (nfold : nat) :
  dashless (csv_name resultset nfold) = false.
Proof.
  unfold csv_name. rewrite dashless_app. simpl. apply andb_false_r.
Qed.

(** The files of two folds have the same name only for the same result set
    and the same fold. *)
Lemma csv_name_inj (r r' : string) (n n' : nat) :
  csv_name r n = csv_name r' n' → r = r' ∧ n = n'.
Proof.
  unfold csv_name. intros Heq.
  assert (r +:+ "-" +:+ pretty n = r' +:+ "-" +:+ pretty n') as Heq'.
  { apply (string_app_inj_r _ _ "-resultset.csv").
    by rewrite !string_app_assoc. }
  assert (∀ (t d d' : string), dashless d = true →
            "-" +:+ d = t +:+ "-" +:+ d' → t = "") as Hdash.
  { intros [|c t] d d' Hd Ht; [done|]. simpl in Ht. injection Ht as <- Ht.
    rewrite Ht, dashless_app in Hd. simpl in Hd.
    by rewrite andb_false_r in Hd. }
  destruct (string_app_eq_cases _ _ _ _ Heq') as [(t & -> & Ht)|(t & -> & Ht)].
  - pose proof (Hdash t _ _ (dashless_pretty n) Ht) as ->.
    simpl in Ht. injection Ht as Ht. apply (inj pretty) in Ht.
    by rewrite string_app_nil_r.
  - pose proof (Hdash t _ _ (dashless_pretty n') Ht) as ->.
    simpl in Ht. injection Ht as Ht. apply (inj pretty) in Ht.
    by rewrite string_app_nil_r.
Qed.

(** ** The CSV stage *)

Section csv_properties.

Context `{!Host}.

Lemma write_existing (name text c : string) (fs : files) :
  fs !! name = Some c →
  write name text fs = (Returns (), <[name := c +:+ text]> fs).
Proof. intros Hc. unfold write. by rewrite Hc. Qed.

(** The rows from sample [i] on, appended to the file that is open *)
Lemma write_rows_aligned (name : string) (f : fold)
    (rest : list (Z * string)) (i : nat) (c : string) (fs : files) :
  fs !! name = Some c →
  (length rest + i ≤ length (y f))%nat →
  (length rest + i ≤ length (probs f))%nat →
  write_rows name f rest i fs
  = (Returns (),
     <[name := c +:+ foldr (λ row text, row +:+ text) ""
                 (zip_with (λ t yp, csv_row t.2 t.1 yp.2 yp.1) rest
                    (zip (drop i (y f)) (drop i (probs f))))]> fs).
Proof.
  revert i c fs.
  induction rest as [|[real_label domain] rest IH]; intros i c fs Hc Hy Hp.
  { simpl. rewrite string_app_nil_r. by rewrite insert_id. }
  simpl in Hy, Hp.
  destruct (lookup_lt_is_Some_2 (y f) i) as [real_y Hyi]; [lia|].
  destruct (lookup_lt_is_Some_2 (probs f) i) as [prob Hpi]; [lia|].
  rewrite (drop_S _ _ _ Hyi), (drop_S _ _ _ Hpi).
  simpl. rewrite Hyi, Hpi.
  unfold mbind, prog_bind. rewrite (write_existing _ _ c) by done.
  rewrite (IH (S i) (c +:+ csv_row domain real_label prob real_y));
    [| by rewrite lookup_insert_eq | lia | lia].
  by rewrite insert_insert_eq, string_app_assoc.
Qed.

(** A fold that lacks a label or a probability for one of its samples stops
    the rows with an [IndexError]. *)
Lemma write_rows_short (name : string) (f : fold)
    (rest : list (Z * string)) (i : nat) (fs : files) :
  (i ≤ length (y f))%nat → (i ≤ length (probs f))%nat →
  (length (y f) < length rest + i ∨ length (probs f) < length rest + i)%nat →
  ∃ fs', write_rows name f rest i fs = (Raises IndexError, fs').
Proof.
  revert i fs.
  induction rest as [|[real_label domain] rest IH]; intros i fs Hy Hp Hshort.
  { simpl in Hshort. lia. }
  simpl. simpl in Hshort.
  destruct (y f !! i) as [real_y|] eqn:Hyi; [|by exists fs].
  destruct (probs f !! i) as [prob|] eqn:Hpi; [|by exists fs].
  apply lookup_lt_Some in Hyi, Hpi.
  unfold mbind, prog_bind. unfold write at 1.
  apply IH; lia.
Qed.

Lemma write_folds_aligned (resultset : string) (folds : list fold)
    (nfold : nat) (fs : files) :
  Forall rows_aligned folds →
  write_folds resultset folds nfold fs
  = (Returns (), csv_files resultset folds nfold fs).
Proof.
  intros Hal. revert nfold fs.
  induction Hal as [|f folds [Hy Hp] _ IH]; intros nfold fs; [done|].
  simpl. unfold mbind, prog_bind. unfold open_w at 1.
  rewrite (write_existing _ _ "") by by rewrite lookup_insert_eq.
  rewrite (write_rows_aligned _ _ _ _ csv_header);
    [| by rewrite lookup_insert_eq | lia | lia].
  rewrite !insert_insert_eq. rewrite IH. done.
Qed.

Lemma write_folds_short (resultset : string) (folds : list fold)
    (nfold : nat) (fs : files) :
  Exists (λ f, ¬ rows_aligned f) folds →
  ∃ fs', write_folds resultset folds nfold fs = (Raises IndexError, fs').
Proof.
  revert nfold fs. induction folds as [|f folds IH]; intros nfold fs Hex.
  { by apply Exists_nil in Hex. }
  simpl. unfold mbind, prog_bind. unfold open_w at 1.
  rewrite (write_existing _ _ "") by by rewrite lookup_insert_eq.
  destruct (decide (rows_aligned f)) as [[Hy Hp]|Hf].
  - rewrite (write_rows_aligned _ _ _ _ csv_header);
      [| by rewrite lookup_insert_eq | lia | lia].
    apply Exists_cons in Hex as [Hex|Hex]; [by destruct Hex|].
    by apply IH.
  - match goal with
    | |- context [write_rows ?name f (indata_test f) 0 ?fs1] =>
        destruct (write_rows_short name f (indata_test f) 0 fs1)
          as [fs' ->]; [lia | lia | |]
    end.
    + unfold rows_aligned in Hf. lia.
    + by exists fs'.
Qed.

Lemma write_resultsets_ready (items : list (string * model_results))
    (fs : files) :
  Forall (λ kr, csv_ready_model kr.2) items →
  write_resultsets items fs = (Returns (), csv_files_items items fs).
Proof.
  intros Hal. revert fs.
  induction Hal as [|[resultset r] items Hr _ IH]; intros fs; [done|].
  simpl. destruct r as [folds|]; [|done]. simpl in Hr.
  unfold mbind, prog_bind. rewrite write_folds_aligned by done. apply IH.
Qed.

Lemma write_resultsets_not_ready (items : list (string * model_results))
    (fs : files) :
  Exists (λ kr, ¬ csv_ready_model kr.2) items →
  ∃ e fs', write_resultsets items fs = (Raises e, fs')
           ∧ (e = TypeError ∨ e = IndexError).
Proof.
  revert fs. induction items as [|[resultset r] items IH]; intros fs Hex.
  { by apply Exists_nil in Hex. }
  simpl. unfold mbind, prog_bind.
  destruct r as [folds|]; [|exists TypeError, fs; split; [done | by left]].
  destruct (decide (Forall rows_aligned folds)) as [Hal|Hal].
  - rewrite write_folds_aligned by done.
    apply Exists_cons in Hex as [Hex|Hex]; [by destruct Hex|].
    by apply IH.
  - apply not_Forall_Exists in Hal; [|apply _].
    destruct (write_folds_short resultset folds 0 fs Hal) as [fs' ->].
    exists IndexError, fs'. split; [done | by right].
Qed.

(** X10: the CSV stage completes exactly on results in which every model has a
    list of folds and every fold a label and a probability for each of its
    samples; a [None] entry ends it with a [TypeError], a short fold with an
    [IndexError]. *)
Theorem write_results_to_csv_outcome (res : results) (fs : files) :
  (csv_ready res ∧ ∃ fs', write_results_to_csv res fs = (Returns (), fs'))
  ∨ (¬ csv_ready res
     ∧ ∃ e fs', write_results_to_csv res fs = (Raises e, fs')
                ∧ (e = TypeError ∨ e = IndexError)).
Proof.
  unfold write_results_to_csv.
  assert (csv_ready res
          ↔ Forall (λ kr, csv_ready_model kr.2) (map_to_list res)) as Hiff.
  { unfold csv_ready. rewrite map_Forall_to_list.
    apply Forall_proper; [|done]. by intros []. }
  destruct (decide (Forall (λ kr, csv_ready_model kr.2) (map_to_list res)))
    as [Hal|Hal].
  - left. split; [by apply Hiff|]. eexists. by apply write_resultsets_ready.
  - right. split; [by rewrite Hiff|].
    apply not_Forall_Exists in Hal; [|apply _].
    by apply write_resultsets_not_ready.
Qed.

End csv_properties.

Section csv_contents.

Context `{!Host}.

Lemma csv_files_lookup_other (resultset : string) (folds : list fold)
    (nfold : nat) (fs : files) (name : string) :
  (∀ i, (i < length folds)%nat → name ≠ csv_name resultset (nfold + i)) →
  csv_files resultset folds nfold fs !! name = fs !! name.
Proof.
  revert nfold fs. induction folds as [|f folds IH]; intros nfold fs Hname.
  { done. }
  simpl. rewrite IH.
  - apply lookup_insert_ne. intros Heq.
    apply (Hname 0%nat); [simpl; lia|]. by rewrite Nat.add_0_r.
  - intros i Hi. replace (S nfold + i)%nat with (nfold + S i)%nat by lia.
    apply Hname. simpl. lia.
Qed.

Lemma csv_files_lookup (resultset : string) (folds : list fold)
    (nfold : nat) (fs : files) (i : nat) (f : fold) :
  folds !! i = Some f →
  csv_files resultset folds nfold fs !! csv_name resultset (nfold + i)
  = Some (csv_text f).
Proof.
  revert nfold fs i. induction folds as [|f0 folds IH]; intros nfold fs i Hi.
  { done. }
  simpl. destruct i as [|i]; simpl in Hi.
  - injection Hi as ->. rewrite Nat.add_0_r. rewrite csv_files_lookup_other.
    + apply lookup_insert_eq.
    + intros j _ Heq. apply csv_name_inj in Heq as [_ Heq]. lia.
  - replace (nfold + S i)%nat with (S nfold + i)%nat by lia. by apply IH.
Qed.

Lemma csv_files_items_lookup_other (items : list (string * model_results))
    (fs : files) (name : string) :
  (∀ resultset folds i, (resultset, Some folds) ∈ items →
     (i < length folds)%nat → name ≠ csv_name resultset i) →
  csv_files_items items fs !! name = fs !! name.
Proof.
  revert fs. induction items as [|[resultset r] items IH]; intros fs Hname.
  { done. }
  simpl. rewrite IH.
  - apply csv_files_lookup_other. intros i Hi.
    destruct r as [folds|]; [|simpl in Hi; lia].
    apply (Hname resultset folds); [by left | done].
  - intros resultset' folds i Hin. apply Hname. by right.
Qed.

Lemma csv_files_items_lookup (items : list (string * model_results))
    (fs : files) (resultset : string) (folds : list fold) (i : nat) (f : fold) :
  NoDup (items.*1) → (resultset, Some folds) ∈ items → folds !! i = Some f →
  csv_files_items items fs !! csv_name resultset i = Some (csv_text f).
Proof.
  revert fs. induction items as [|[resultset0 r] items IH];
    intros fs Hnd Hin Hi.
  { by apply elem_of_nil in Hin. }
  simpl in Hnd. apply NoDup_cons in Hnd as [Hfresh Hnd].
  simpl. apply elem_of_cons in Hin as [Heq|Hin].
  - injection Heq as <- <-. rewrite csv_files_items_lookup_other.
    + by apply (csv_files_lookup resultset folds 0).
    + intros resultset' folds' j Hin' _ Heq.
      apply csv_name_inj in Heq as [<- _]. apply Hfresh.
      apply list_elem_of_fmap. by exists (resultset, Some folds').
  - by apply IH.
Qed.

(** X11: on results that the CSV stage takes it writes, for every fold of
    every model, the file named after the model and the index of the fold,
    with the header and one row per test sample in order; every other file is
    left as it was. *)
Theorem write_results_to_csv_files (res : results) (fs : files) :
  csv_ready res →
  ∃ fs', write_results_to_csv res fs = (Returns (), fs')
    ∧ (∀ resultset folds i f,
         res !! resultset = Some (Some folds) → folds !! i = Some f →
         fs' !! csv_name resultset i = Some (csv_text f))
    ∧ (∀ name,
         (∀ resultset folds i,
            res !! resultset = Some (Some folds) → (i < length folds)%nat →
            name ≠ csv_name resultset i) →
         fs' !! name = fs !! name).
Proof.
  intros Hready. unfold write_results_to_csv.
  exists (csv_files_items (map_to_list res) fs). split_and!.
  - apply write_resultsets_ready.
    unfold csv_ready in Hready. rewrite map_Forall_to_list in Hready.
    eapply Forall_impl; [exact Hready|]. by intros [].
  - intros resultset folds i f Hres Hi.
    apply (csv_files_items_lookup _ _ _ folds); [| |done].
    + apply NoDup_fst_map_to_list.
    + by apply elem_of_map_to_list.
  - intros name Hname. apply csv_files_items_lookup_other.
    intros resultset folds i Hin. apply Hname.
    by apply elem_of_map_to_list.
Qed.

End csv_contents.

Lemma write_results_to_csv_files_witness :
  @csv_ready (<["bigram" := Some [reference_fold]]> ∅)
  ∧ ∃ fs',
      @write_results_to_csv reference_host
        (<["bigram" := Some [reference_fold]]> ∅) ∅ = (Returns (), fs')
      ∧ (∀ resultset folds i f,
           (<["bigram" := Some [reference_fold]]> ∅ : results) !! resultset
           = Some (Some folds) →
           folds !! i = Some f →
           fs' !! csv_name resultset i = Some (@csv_text reference_host f))
      ∧ (∀ name,
           (∀ resultset folds i,
              (<["bigram" := Some [reference_fold]]> ∅ : results) !! resultset
              = Some (Some folds) →
              (i < length folds)%nat → name ≠ csv_name resultset i) →
           fs' !! name = (∅ : files) !! name).
Proof.
  assert (csv_ready (<["bigram" := Some [reference_fold]]> ∅)) as Hready.
  { apply map_Forall_insert_2; [|apply map_Forall_empty].
    repeat constructor. }
  split; [exact Hready|].
  exact (@write_results_to_csv_files reference_host _ ∅ Hready).
Defined.

(** ** The files that a run touches *)

Section files_touched.

Context `{!Host}.

Lemma create_figs_report isbigram islstm nfolds force :
  create_figs isbigram islstm nfolds force
  = load_or_run isbigram islstm nfolds force ≫= report.
Proof. done. Qed.

Lemma keeps_to_weaken {A} (P Q : string → Prop) (m : prog A) :
  (∀ name, P name → Q name) → keeps_to P m → keeps_to Q m.
Proof.
  intros HPQ Hm fs. destruct (Hm fs) as [Hframe Hkeep].
  split; [|done]. intros name Hname. apply Hframe. intros HP. by apply Hname, HPQ.
Qed.

Lemma keeps_to_lift {A} (P : string → Prop) (o : outcome A) :
  keeps_to P (lift o).
Proof. intros fs. by split. Qed.

Lemma keeps_to_ret {A} (P : string → Prop) (a : A) : keeps_to P (mret a).
Proof. intros fs. by split. Qed.

Lemma keeps_to_bind {A B} (P : string → Prop) (m : prog A) (k : A → prog B) :
  keeps_to P m → (∀ a, keeps_to P (k a)) → keeps_to P (m ≫= k).
Proof.
  intros Hm Hk fs. unfold mbind, prog_bind.
  destruct (Hm fs) as [Hframe Hkeep].
  destruct (m fs) as [[a|e|] fs1]; simpl in *; [|done|done].
  destruct (Hk a fs1) as [Hframe' Hkeep']. split.
  - intros name Hname. by rewrite Hframe', Hframe.
  - intros name Hsome. by apply Hkeep', Hkeep.
Qed.

Lemma keeps_to_insert (P : string → Prop) (name : string)
    (text : files → string) :
  P name →
  keeps_to P (λ fs, (Returns (), <[name := text fs]> fs) : outcome () * files).
Proof.
  intros HP fs. simpl. split.
  - intros name' Hname. apply lookup_insert_ne. by intros ->.
  - intros name' Hsome. destruct (decide (name = name')) as [->|Hne].
    + rewrite lookup_insert_eq. by eexists.
    + by rewrite lookup_insert_ne.
Qed.

Lemma keeps_to_open_w (P : string → Prop) (name : string) :
  P name → keeps_to P (open_w name).
Proof. intros HP. by apply (keeps_to_insert P name (λ _, "")). Qed.

Lemma keeps_to_write (P : string → Prop) (name text : string) :
  P name → keeps_to P (write name text).
Proof.
  intros HP.
  by apply (keeps_to_insert P name (λ fs, default "" (fs !! name) +:+ text)).
Qed.

Lemma keeps_to_write_rows (P : string → Prop) name f rest i :
  P name → keeps_to P (write_rows name f rest i).
Proof.
  intros HP. revert i.
  induction rest as [|[real_label domain] rest IH]; intros i; simpl.
  { apply keeps_to_ret. }
  destruct (y f !! i); [|apply keeps_to_lift].
  destruct (probs f !! i); [|apply keeps_to_lift].
  apply keeps_to_bind; [by apply keeps_to_write | intros _; apply IH].
Qed.

Lemma keeps_to_write_folds resultset folds nfold :
  keeps_to csv_named (write_folds resultset folds nfold).
Proof.
  revert nfold. induction folds as [|f folds IH]; intros nfold; simpl.
  { apply keeps_to_ret. }
  assert (csv_named (csv_name resultset nfold)) as Hname by by eexists _, _.
  repeat (apply keeps_to_bind; [|intros _]);
    auto using keeps_to_open_w, keeps_to_write, keeps_to_write_rows.
Qed.

Lemma keeps_to_write_results_to_csv (res : results) :
  keeps_to csv_named (write_results_to_csv res).
Proof.
  unfold write_results_to_csv.
  induction (map_to_list res) as [|[resultset r] items IH]; simpl.
  { apply keeps_to_ret. }
  apply keeps_to_bind; [|by intros _].
  destruct r; [apply keeps_to_write_folds | apply keeps_to_lift].
Qed.

Lemma keeps_to_report (res : results) : keeps_to report_name (report res).
Proof.
  unfold report.
  apply keeps_to_bind.
  { eapply keeps_to_weaken; [|apply keeps_to_write_results_to_csv].
    intros name. by right. }
  intros _. repeat (apply keeps_to_bind; [apply keeps_to_lift|intros ?]).
  apply keeps_to_bind; [|intros _].
  - apply keeps_to_open_w. by left.
  - apply keeps_to_write. by left.
Qed.






End files_touched.

(** ** What a completed run implies *)

Section completed_run.

Context `{!Host}.

Lemma extract_Some (res : results) (model : string) m :
  extract res model = Returns (Some m) →
  ∃ r, res !! model = Some r ∧ truthy_results r = true.
Proof.
  unfold extract. destruct (res !! model) as [r|]; [|done].
  destruct (truthy_results r) eqn:Htruthy; [intros _; by exists r | done].
Qed.

Lemma plot_Returns (model : string) m ln :
  plot model m = Returns ln → ∃ curve, m = Some curve.
Proof. destruct m; [by eexists | done]. Qed.

Lemma write_results_to_csv_Returns (res : results) (fs fs' : files) :
  write_results_to_csv res fs = (Returns (), fs') → csv_ready res.
Proof.
  intros Hret. unfold csv_ready. rewrite map_Forall_to_list.
  destruct (decide (Forall (λ kr, csv_ready_model kr.2) (map_to_list res)))
    as [Hal|Hal].
  { eapply Forall_impl; [exact Hal|]. by intros []. }
  apply not_Forall_Exists in Hal; [|apply _].
  destruct (write_resultsets_not_ready _ fs Hal) as (e & fs1 & Hr & _).
  unfold write_results_to_csv in Hret. congruence.
Qed.

(** X13: a run completes only on results in which both models have at least
    one fold and every fold of either has a label and a probability for each
    of its samples; the figure is then in place. *)
Theorem create_figs_completes_only isbigram islstm nfolds force fs :
  (create_figs isbigram islstm nfolds force fs).1 = Returns () →
  ∃ res fs1 b l,
    load_or_run isbigram islstm nfolds force fs = (Returns res, fs1)
    ∧ res !! "bigram" = Some b ∧ truthy_results b = true
    ∧ res !! "lstm" = Some l ∧ truthy_results l = true
    ∧ csv_ready res
    ∧ is_Some ((create_figs isbigram islstm nfolds force fs).2 !! "results.png").
Proof.
  rewrite create_figs_report. unfold mbind, prog_bind.
  destruct (load_or_run isbigram islstm nfolds force fs) as [[res|e|] fs1];
    [|done|done].
  unfold report, mbind, prog_bind, lift.
  destruct (write_results_to_csv res fs1) as [[[]|e|] fs2] eqn:Hcsv;
    [|done|done].
  apply write_results_to_csv_Returns in Hcsv.
  destruct (extract res "bigram") as [mb|e|] eqn:Hb; [|done|done].
  destruct (extract res "lstm") as [ml|e|] eqn:Hl; [|done|done].
  destruct (plot "LSTM" ml) as [ll|e|] eqn:Hpl; [|done|done].
  destruct (plot "Bigrams" mb) as [lb|e|] eqn:Hpb; [|done|done].
  apply plot_Returns in Hpl as [cl ->]. apply plot_Returns in Hpb as [cb ->].
  apply extract_Some in Hb as (b & Hb & Htb).
  apply extract_Some in Hl as (l & Hl & Htl).
  intros _. exists res, fs1, b, l. split_and!; try done.
  unfold open_w, write. simpl. rewrite lookup_insert_eq. by eexists.
Qed.

End completed_run.

Lemma create_figs_completes_only_witness :
  (@create_figs reference_host (PyBool true) (PyBool true) 1 (PyBool false) ∅).1
  = Returns ()
  ∧ ∃ res fs1 b l,
      @load_or_run reference_host (PyBool true) (PyBool true) 1 (PyBool false) ∅
      = (Returns res, fs1)
      ∧ res !! "bigram" = Some b ∧ truthy_results b = true
      ∧ res !! "lstm" = Some l ∧ truthy_results l = true
      ∧ csv_ready res
      ∧ is_Some
          ((@create_figs reference_host (PyBool true) (PyBool true) 1
              (PyBool false) ∅).2 !! "results.png").
Proof.
  split; [by vm_compute|].
  apply (@create_figs_completes_only reference_host). by vm_compute.
Defined.

(** ** The cache between two runs *)

Section cache_between_runs.

Context `{!Host}.

Lemma regenerate_Returns isbigram islstm nfolds fs b l :
  run_experiments isbigram islstm nfolds = Returns (b, l) →
  regenerate isbigram islstm nfolds fs
  = (Returns (<["bigram" := b]> (<["lstm" := l]> ∅)),
     <[RESULT_FILE := pickle_dumps (<["bigram" := b]> (<["lstm" := l]> ∅))]> fs).
Proof.
  intros Hrun. unfold regenerate, mbind, prog_bind, lift. rewrite Hrun.
  unfold cache_store, mbind, prog_bind, open_w, write. simpl.
  by rewrite lookup_insert_eq, insert_insert_eq.
Qed.

(** X14: a run that has computed its results leaves them in the cache file,
    however it ends, unless the cache file has the name of the figure or of a
    CSV file; the next run without [force] then works on these results,
    whatever its arguments. *)
Theorem create_figs_then_cached
    isbigram islstm nfolds force isbigram' islstm' nfolds' force' fs b l :
  truthy force = true ∨ isfile RESULT_FILE fs = false →
  run_experiments isbigram islstm nfolds = Returns (b, l) →
  ¬ report_name RESULT_FILE →
  pickle_loads (pickle_dumps (<["bigram" := b]> (<["lstm" := l]> ∅)))
  = Some (<["bigram" := b]> (<["lstm" := l]> ∅)) →
  truthy force' = false →
  load_or_run isbigram' islstm' nfolds' force'
    (create_figs isbigram islstm nfolds force fs).2
  = (Returns (<["bigram" := b]> (<["lstm" := l]> ∅)),
     (create_figs isbigram islstm nfolds force fs).2).
Proof.
  intros Hregen Hrun Hname Hpickle Hforce'.
  set (res := <["bigram" := b]> (<["lstm" := l]> ∅) : results) in *.
  assert ((create_figs isbigram islstm nfolds force fs).2 !! RESULT_FILE
          = Some (pickle_dumps res)) as Hfile.
  { rewrite create_figs_report. unfold mbind, prog_bind, load_or_run.
    assert (truthy force || negb (isfile RESULT_FILE fs) = true) as ->.
    { destruct Hregen as [-> | ->]; [done | by rewrite orb_true_r]. }
    rewrite (regenerate_Returns _ _ _ _ b l Hrun). fold res.
    destruct (keeps_to_report res (<[RESULT_FILE := pickle_dumps res]> fs))
      as [Hframe _].
    rewrite Hframe by done. apply lookup_insert_eq. }
  unfold load_or_run. rewrite Hforce'. unfold isfile.
  rewrite Hfile. rewrite bool_decide_eq_true_2 by by eexists. simpl.
  unfold cache_load. by rewrite Hfile, Hpickle.
Qed.

End cache_between_runs.

Lemma reference_cache_name : ¬ report_name (@RESULT_FILE reference_host).
Proof.
  intros [Heq|(r & n & Heq)]; [done|].
  apply (f_equal dashless) in Heq. by rewrite csv_name_dash in Heq.
Qed.

Lemma create_figs_then_cached_witness :
  (truthy (PyBool false) = true
   ∨ isfile (@RESULT_FILE reference_host) ∅ = false)
  ∧ @run_experiments reference_host (PyBool true) (PyBool false) 1
    = Returns (Some [reference_fold], None)
  ∧ ¬ report_name (@RESULT_FILE reference_host)
  ∧ @pickle_loads reference_host (@pickle_dumps reference_host bigram_only)
    = Some bigram_only
  ∧ truthy (PyStr "") = false
  ∧ @load_or_run reference_host (PyBool true) (PyBool true) 10 (PyStr "")
      (@create_figs reference_host (PyBool true) (PyBool false) 1
         (PyBool false) ∅).2
    = (Returns bigram_only,
       (@create_figs reference_host (PyBool true) (PyBool false) 1
          (PyBool false) ∅).2).
Proof.
  split; [by right|]. split; [done|]. split; [apply reference_cache_name|].
  split; [apply reference_round_trip|]. split; [done|].
  apply (@create_figs_then_cached reference_host _ _ _ _ _ _ _ _ ∅
           (Some [reference_fold]) None);
    [by right | done | apply reference_cache_name
    | apply reference_round_trip | done].
Defined.

(** ** A run from the cache and the models *)

Lemma write_rows_host (H1 H2 : Host) name f rest i :
  @csv_row H1 = @csv_row H2 →
  @write_rows H1 name f rest i = @write_rows H2 name f rest i.
Proof.
  intros Hcsv. revert i.
  induction rest as [|[real_label domain] rest IH]; intros i; simpl; [done|].
  destruct (y f !! i); [|done]. destruct (probs f !! i); [|done].
  by rewrite Hcsv, IH.
Qed.

Lemma write_folds_host (H1 H2 : Host) resultset folds nfold :
  @csv_row H1 = @csv_row H2 →
  @write_folds H1 resultset folds nfold = @write_folds H2 resultset folds nfold.
Proof.
  intros Hcsv. revert nfold.
  induction folds as [|f folds IH]; intros nfold; simpl; [done|].
  by rewrite (write_rows_host H1 H2), IH.
Qed.

Lemma write_results_to_csv_host (H1 H2 : Host) (res : results) :
  @csv_row H1 = @csv_row H2 →
  @write_results_to_csv H1 res = @write_results_to_csv H2 res.
Proof.
  intros Hcsv. unfold write_results_to_csv.
  induction (map_to_list res) as [|[resultset r] items IH]; simpl; [done|].
  rewrite IH. destruct r; [|done]. by rewrite (write_folds_host H1 H2).
Qed.

Lemma extract_host (H1 H2 : Host) (res : results) model :
  @roc_curve H1 = @roc_curve H2 → @extract H1 res model = @extract H2 res model.
Proof. intros Hroc. unfold extract, macro_of. by rewrite Hroc. Qed.

Lemma report_host (H1 H2 : Host) (res : results) :
  same_but_models H1 H2 → @report H1 res = @report H2 res.
Proof.
  intros (_ & Hroc & _ & Hcsv & Hrender). unfold report.
  rewrite (write_results_to_csv_host H1 H2) by done.
  rewrite !(extract_host H1 H2) by done. by rewrite Hrender.
Qed.

Lemma cache_load_host (H1 H2 : Host) :
  same_but_models H1 H2 → @cache_load H1 = @cache_load H2.
Proof.
  intros (Henv & _ & Hloads & _). unfold cache_load, RESULT_FILE.
  by rewrite Henv, Hloads.
Qed.

(** X15: with the cache file in place and [force] false the models are not
    run: the run is the same on every host that has the same environment, the
    same [pickle.load], [roc_curve], row format and renderer, whatever its
    models are. *)
Theorem create_figs_cached_ignores_models (H1 H2 : Host)
    isbigram islstm nfolds force fs :
  same_but_models H1 H2 →
  truthy force = false → isfile (@RESULT_FILE H1) fs = true →
  @create_figs H1 isbigram islstm nfolds force fs
  = @create_figs H2 isbigram islstm nfolds force fs.
Proof.
  intros Hsame Hforce Hfile.
  assert (isfile (@RESULT_FILE H2) fs = true) as Hfile2.
  { destruct Hsame as (Henv & _). unfold RESULT_FILE in *. by rewrite <-Henv. }
  rewrite !create_figs_report. unfold mbind, prog_bind, load_or_run.
  rewrite Hforce, Hfile, Hfile2. simpl.
  rewrite (cache_load_host H1 H2 Hsame).
  destruct (cache_load fs) as [[res|e|] fs1]; [|done|done].
  by rewrite (report_host H1 H2 res Hsame).
Qed.

Lemma create_figs_cached_ignores_models_witness :
  same_but_models reference_host other_models_host
  ∧ truthy (PyBool false) = false
  ∧ isfile (@RESULT_FILE reference_host)
      (<["results.pkl" := reference_dumps both_models]> ∅) = true
  ∧ @create_figs reference_host (PyBool true) (PyBool true) 1 (PyBool false)
      (<["results.pkl" := reference_dumps both_models]> ∅)
    = @create_figs other_models_host (PyBool true) (PyBool true) 1 (PyBool false)
        (<["results.pkl" := reference_dumps both_models]> ∅).
Proof.
  assert (isfile (@RESULT_FILE reference_host)
            (<["results.pkl" := reference_dumps both_models]> ∅) = true) as Hfile.
  { unfold isfile. apply bool_decide_eq_true_2.
    change (@RESULT_FILE reference_host) with "results.pkl".
    rewrite lookup_insert_eq. by eexists. }
  split; [by repeat split|]. split; [done|]. split; [exact Hfile|].
  apply (create_figs_cached_ignores_models reference_host other_models_host);
    [by repeat split | done | exact Hfile].
Defined.

(** ** The experiments and the program *)

Section experiments.

Context `{!Host}.



(** X17: from the environment alone a model is switched off by the empty
    string, and then the program does not complete once it has to compute
    results: it stops in the CSV stage at the latest. *)
Theorem main_switched_off_raises (fs : files) :
  environ !! "BIGRAM" = Some "" ∨ environ !! "LSTM" = Some "" →
  truthy default_force = true ∨ isfile RESULT_FILE fs = false →
  ∃ e fs', main fs = (Raises e, fs').
Proof.
  intros Hoff Hregen. unfold main, mbind, prog_bind, lift.
  destruct (environ_int "NFOLDS" 1) as [nfolds|e|] eqn:Hn.
  2: { by exists e, fs. }
  2: { unfold environ_int in Hn. destruct (environ !! "NFOLDS"); [|done].
       by destruct (py_int _). }
  assert (load_or_run default_isbigram default_islstm nfolds default_force fs
          = regenerate default_isbigram default_islstm nfolds fs) as Hload.
  { unfold load_or_run.
    destruct Hregen as [-> | ->]; [done | by rewrite orb_true_r]. }
  destruct (regenerate_cases default_isbigram default_islstm nfolds fs)
    as [[e He] | (b & l & fs1 & Hrun & Hres)].
  { exists e, fs. rewrite create_figs_report. unfold mbind, prog_bind.
    by rewrite Hload, He. }
  rewrite <-Hload in Hres.
  destruct (run_experiments_cases default_isbigram default_islstm nfolds)
    as [[e He] | (b' & l' & Hrun' & Hb & Hl)]; [congruence|].
  rewrite Hrun in Hrun'. simplify_eq.
  destruct Hoff as [Hoff|Hoff].
  - apply (create_figs_absent_entry _ _ _ _ _ _ _ "bigram" Hres).
    rewrite lookup_insert_eq. f_equal.
    destruct b'; [|done]. destruct Hb as [Hb _].
    unfold default_isbigram, environ_get in Hb. rewrite Hoff in Hb.
    discriminate Hb. by eexists.
  - apply (create_figs_absent_entry _ _ _ _ _ _ _ "lstm" Hres).
    rewrite lookup_insert_ne by done. rewrite lookup_insert_eq. f_equal.
    destruct l'; [|done]. destruct Hl as [Hl _].
    unfold default_islstm, environ_get in Hl. rewrite Hoff in Hl.
    discriminate Hl. by eexists.
Qed.

(** X18: when [results] has at least one fold for either model, every fold
    with a label and a probability for each sample, and the macro curves of
    both models exist, the run completes: the files are the CSV files of the
    folds and the figure with the line of the LSTM model before the line of
    the bigram model. *)
Theorem create_figs_completes isbigram islstm nfolds force fs
    (res : results) fs1 bs ls mb ml :
  load_or_run isbigram islstm nfolds force fs = (Returns res, fs1) →
  csv_ready res →
  res !! "bigram" = Some (Some bs) → bs ≠ [] →
  res !! "lstm" = Some (Some ls) → ls ≠ [] →
  macro_of bs = Returns mb → macro_of ls = Returns ml →
  create_figs isbigram islstm nfolds force fs
  = (Returns (),
     <["results.png" :=
         render [Line ml.1.1 ml.1.2 "LSTM" ml.2;
                 Line mb.1.1 mb.1.2 "Bigrams" mb.2]]>
       (csv_files_items (map_to_list res) fs1)).
Proof.
  intros Hload Hready Hb Hbs Hl Hls Hmb Hml.
  rewrite create_figs_report. unfold mbind at 1. unfold prog_bind at 1.
  rewrite Hload. unfold report, mbind, prog_bind, lift.
  unfold write_results_to_csv. rewrite write_resultsets_ready.
  2: { unfold csv_ready in Hready. rewrite map_Forall_to_list in Hready.
       eapply Forall_impl; [exact Hready|]. by intros []. }
  unfold extract. rewrite Hb, Hl.
  destruct bs as [|b0 bs]; [done|]. destruct ls as [|l0 ls]; [done|].
  simpl. unfold mbind, outcome_bind. rewrite Hmb, Hml. simpl.
  destruct ml as [[? ?] ?], mb as [[? ?] ?]. simpl.
  unfold open_w, write. simpl.
  by rewrite lookup_insert_eq, insert_insert_eq.
Qed.

End experiments.

Lemma main_switched_off_raises_witness :
  (@environ lstm_off_host !! "BIGRAM" = Some ""
   ∨ @environ lstm_off_host !! "LSTM" = Some "")
  ∧ (truthy (@default_force lstm_off_host) = true
     ∨ isfile (@RESULT_FILE lstm_off_host) ∅ = false)
  ∧ ∃ e fs', @main lstm_off_host ∅ = (Raises e, fs').
Proof.
  split; [by right|]. split; [by right|].
  apply (@main_switched_off_raises lstm_off_host); by right.
Defined.

Lemma create_figs_completes_witness :
  @load_or_run reference_host (PyBool true) (PyBool true) 1 (PyBool false) ∅
  = (Returns both_models, <["results.pkl" := reference_dumps both_models]> ∅)
  ∧ csv_ready both_models
  ∧ both_models !! "bigram" = Some (Some [reference_fold])
  ∧ [reference_fold] ≠ []
  ∧ both_models !! "lstm" = Some (Some [reference_fold])
  ∧ [reference_fold] ≠ []
  ∧ @macro_of reference_host [reference_fold] = Returns reference_macro
  ∧ @macro_of reference_host [reference_fold] = Returns reference_macro
  ∧ @create_figs reference_host (PyBool true) (PyBool true) 1 (PyBool false) ∅
    = (Returns (),
       <["results.png" :=
           @render reference_host
             [Line reference_macro.1.1 reference_macro.1.2 "LSTM"
                reference_macro.2;
              Line reference_macro.1.1 reference_macro.1.2 "Bigrams"
                reference_macro.2]]>
         (@csv_files_items reference_host (map_to_list both_models)
            (<["results.pkl" := reference_dumps both_models]> ∅))).
Proof.
  assert (@load_or_run reference_host (PyBool true) (PyBool true) 1
            (PyBool false) ∅
          = (Returns both_models,
             <["results.pkl" := reference_dumps both_models]> ∅)) as Hload.
  { unfold load_or_run.
    change (truthy (PyBool false)
            || negb (isfile (@RESULT_FILE reference_host) ∅)) with true.
    by apply (@regenerate_Returns reference_host). }
  assert (csv_ready both_models) as Hready.
  { apply map_Forall_insert_2; [by repeat constructor|].
    apply map_Forall_insert_2; [by repeat constructor|].
    apply map_Forall_empty. }
  assert (@macro_of reference_host [reference_fold] = Returns reference_macro)
    as Hmacro by qc_eval.
  split; [exact Hload|]. split; [exact Hready|]. split; [done|].
  split; [done|]. split; [done|]. split; [done|].
  split; [exact Hmacro|]. split; [exact Hmacro|].
  exact (@create_figs_completes reference_host _ _ _ _ _ _ _ _ _ _ _
           Hload Hready eq_refl ltac:(done) eq_refl ltac:(done) Hmacro Hmacro).
Defined.
